(** * Perfect Shot: the App component as a transition system

    The component [App] keeps its data in React state cells and changes
    them from event handlers and from the continuations of the promises
    those handlers start.  The embedding below keeps one record field per
    [useState] cell, one setter per [setX] function (taking the updater
    [prev => ...], as React does), one function per handler, and one
    function per promise continuation.  What leaves the component (calls of
    the image service and of the album composer, alerts, downloads,
    console output, faults nobody catches) is appended to a log.

    A handler is a closure of the render that created it: what it reads of
    the state cells directly is what that render saw, while its updaters
    [setX(prev => ...)] apply to the cells of the moment.  React renders
    between two events, so a control that the latest render returned calls
    a handler that reads the current state.  The two modals are different:
    they are children of [<AnimatePresence>] and have an [exit] animation,
    so a modal that the latest render no longer returns stays mounted, with
    the handlers of the last render that returned it, until the animation
    has ended.  The handlers of the modals that read state cells,
    [handleAddPastedImages] and [handleCropConfirm], therefore take the
    render they belong to beside the state they update; [step] is a call
    from the latest render, and the view at the end of the definitions says
    which render a mounted control belongs to.  A promise continuation
    reads only what its closure captured when the handler ran, and writes
    through updaters.  Handlers and continuations run to completion, one at
    a time.

    The image service [generateVibeBasedImage], the composer
    [createAlbumPage], the file reader, the canvas and the clipboard are
    outside the component: an event carries what they answer. *)

From stdpp Require Import base option list strings pretty gmap fin_maps.

Local Open Scope string_scope.
Local Open Scope list_scope.
Local Open Scope nat_scope.

(** ** Constants and data *)

Definition MAX_MAIN_IMAGES : nat := 10.
Definition MAX_INSPIRATION_IMAGES : nat := 5.

Inductive ImageStatus := Pending | Done | Error.

#[global] Instance ImageStatus_eq_dec : EqDecision ImageStatus.
Proof. solve_decision. Defined.

Record GeneratedImage := {
  status : ImageStatus;
  url : option string;
  error : option string
}.

(** ['main' | 'inspiration'] *)
Inductive ImageType := Main | Inspiration.

(** ['idle' | 'photos-uploaded' | 'generating' | 'results-shown'] *)
Inductive AppState := Idle | PhotosUploaded | Generating | ResultsShown.

#[global] Instance AppState_eq_dec : EqDecision AppState.
Proof. solve_decision. Defined.

(** A file is represented by what [FileReader.readAsDataURL] leaves in
    [reader.result] when [onloadend] fires: [None] is [null]. *)
Abbreviation File := (option string).

(** An entry of [cropQueue].  [handleImageUpload] stores [reader.result]
    unchecked, so [dataUrl] can be [null]. *)
Record QueueItem := {
  dataUrl : option string;
  type : ImageType
}.

Inductive CropUnit := px | percent.

(** [Crop] and [PixelCrop] of react-image-crop. *)
Record Crop := {
  unit : CropUnit;
  x : Z;
  y : Z;
  width : Z;
  height : Z
}.
Abbreviation PixelCrop := Crop.

(** An element position of a JavaScript array of [GeneratedImage]: a
    position never written is a hole, a hole that went through a spread
    [[...prev]] is the value [undefined]. *)
Inductive Cell := Hole | Undefined | Item (image : GeneratedImage).

(** What a rejected promise or a [throw] carries: an [Error] object with its
    [message], or any other value. *)
Inductive Thrown := ErrorObject (message : string) | OtherValue.

Inductive Settled := Fulfilled (value : string) | Rejected (err : Thrown).

(** What leaves the component. *)
Inductive Effect :=
| generateVibeBasedImage (uploaded inspiration : list string) (prompt : string)
| createAlbumPage (imageData : gmap string string)
| alert (message : string)
| download (href filename : string)
| console_error (message : string)
| unhandled (err : Thrown).

(** Promises that are still unsettled. *)
Inductive Task :=
| ReadUpload (items : list QueueItem)
| ReadPasted (files : list File)
| Generation (remaining : list nat)
| Regeneration (index : nat)
| AlbumPage.

(** ** JavaScript helpers *)

(** [Array.prototype.slice(start, end)]; [None] is an omitted [end]. *)
Definition relative_index (len k : Z) : Z :=
  if (k <? 0)%Z then Z.max (len + k) 0 else Z.min k len.

Definition slice {A} (l : list A) (start : Z) (stop : option Z) : list A :=
  let len := Z.of_nat (length l) in
  let k := relative_index len start in
  let final := match stop with
               | None => len
               | Some e => relative_index len e
               end in
  take (Z.to_nat (final - k)) (drop (Z.to_nat k) l).

(** [prev.filter((_, i) => i !== index)] *)
Definition filter_index {A} (index : nat) (prev : list A) : list A :=
  (filter (λ p, p.1 ≠ index) (imap pair prev)).*2.

(** [[...prev]]: holes become [undefined]. *)
Definition spread (prev : list Cell) : list Cell :=
  (λ c, match c with Hole => Undefined | _ => c end) <$> prev.

(** [newImages[i] = v]: inside the array the element is replaced, at or
    beyond its length the array grows and the positions skipped are holes. *)
Fixpoint assign (newImages : list Cell) (i : nat) (v : Cell) : list Cell :=
  match newImages, i with
  | [], 0 => [v]
  | [], S i' => Hole :: assign [] i' v
  | _ :: rest, 0 => v :: rest
  | c :: rest, S i' => c :: assign rest i' v
  end.

(** [generatedImages[index]?.status] *)
Definition status_at (a : list Cell) (index : nat) : option ImageStatus :=
  match a !! index with
  | Some (Item image) => Some (status image)
  | _ => None
  end.

(** Truthiness of a string. *)
Definition truthy (u : string) : bool :=
  match u with
  | EmptyString => false
  | String _ _ => true
  end.

(** [err instanceof Error ? err.message : "An unknown error occurred."] *)
Definition errorMessage (err : Thrown) : string :=
  match err with
  | ErrorObject message => message
  | OtherValue => "An unknown error occurred."
  end.

(** [`Result ${index + 1}`] *)
Definition label (index : nat) : string := "Result " +:+ pretty (index + 1).

(** ** The state *)

Record State := {
  uploadedImages : list string;
  inspirationImages : list string;
  userPrompt : string;
  generatedImages : list Cell;
  isDownloading : bool;
  appState : AppState;
  generationCount : nat;
  cropQueue : list QueueItem;
  crop : option Crop;
  completedCrop : option PixelCrop;
  pastedImages : list string;
  isPasteModalOpen : bool;
  (* the promises in flight, the next promise number, the log *)
  tasks : gmap nat Task;
  nextId : nat;
  effects : list Effect
}.

Definition initial : State := {|
  uploadedImages := [];
  inspirationImages := [];
  userPrompt := "";
  generatedImages := [];
  isDownloading := false;
  appState := Idle;
  generationCount := 4;
  cropQueue := [];
  crop := None;
  completedCrop := None;
  pastedImages := [];
  isPasteModalOpen := false;
  tasks := ∅;
  nextId := 0;
  effects := []
|}.

Notation "s |> f" := (f s) (at level 45, left associativity, only parsing).

Definition setUploadedImages (f : list string → list string) (s : State) : State :=
  {| uploadedImages := f (uploadedImages s);
     inspirationImages := inspirationImages s; userPrompt := userPrompt s;
     generatedImages := generatedImages s; isDownloading := isDownloading s;
     appState := appState s; generationCount := generationCount s;
     cropQueue := cropQueue s; crop := crop s;
     completedCrop := completedCrop s; pastedImages := pastedImages s;
     isPasteModalOpen := isPasteModalOpen s; tasks := tasks s;
     nextId := nextId s; effects := effects s |}.

Definition setInspirationImages (f : list string → list string) (s : State) : State :=
  {| uploadedImages := uploadedImages s;
     inspirationImages := f (inspirationImages s); userPrompt := userPrompt s;
     generatedImages := generatedImages s; isDownloading := isDownloading s;
     appState := appState s; generationCount := generationCount s;
     cropQueue := cropQueue s; crop := crop s;
     completedCrop := completedCrop s; pastedImages := pastedImages s;
     isPasteModalOpen := isPasteModalOpen s; tasks := tasks s;
     nextId := nextId s; effects := effects s |}.

Definition setUserPrompt (f : string → string) (s : State) : State :=
  {| uploadedImages := uploadedImages s;
     inspirationImages := inspirationImages s; userPrompt := f (userPrompt s);
     generatedImages := generatedImages s; isDownloading := isDownloading s;
     appState := appState s; generationCount := generationCount s;
     cropQueue := cropQueue s; crop := crop s;
     completedCrop := completedCrop s; pastedImages := pastedImages s;
     isPasteModalOpen := isPasteModalOpen s; tasks := tasks s;
     nextId := nextId s; effects := effects s |}.

Definition setGeneratedImages (f : list Cell → list Cell) (s : State) : State :=
  {| uploadedImages := uploadedImages s;
     inspirationImages := inspirationImages s; userPrompt := userPrompt s;
     generatedImages := f (generatedImages s); isDownloading := isDownloading s;
     appState := appState s; generationCount := generationCount s;
     cropQueue := cropQueue s; crop := crop s;
     completedCrop := completedCrop s; pastedImages := pastedImages s;
     isPasteModalOpen := isPasteModalOpen s; tasks := tasks s;
     nextId := nextId s; effects := effects s |}.

Definition setIsDownloading (f : bool → bool) (s : State) : State :=
  {| uploadedImages := uploadedImages s;
     inspirationImages := inspirationImages s; userPrompt := userPrompt s;
     generatedImages := generatedImages s; isDownloading := f (isDownloading s);
     appState := appState s; generationCount := generationCount s;
     cropQueue := cropQueue s; crop := crop s;
     completedCrop := completedCrop s; pastedImages := pastedImages s;
     isPasteModalOpen := isPasteModalOpen s; tasks := tasks s;
     nextId := nextId s; effects := effects s |}.

Definition setAppState (f : AppState → AppState) (s : State) : State :=
  {| uploadedImages := uploadedImages s;
     inspirationImages := inspirationImages s; userPrompt := userPrompt s;
     generatedImages := generatedImages s; isDownloading := isDownloading s;
     appState := f (appState s); generationCount := generationCount s;
     cropQueue := cropQueue s; crop := crop s;
     completedCrop := completedCrop s; pastedImages := pastedImages s;
     isPasteModalOpen := isPasteModalOpen s; tasks := tasks s;
     nextId := nextId s; effects := effects s |}.

Definition setGenerationCount (f : nat → nat) (s : State) : State :=
  {| uploadedImages := uploadedImages s;
     inspirationImages := inspirationImages s; userPrompt := userPrompt s;
     generatedImages := generatedImages s; isDownloading := isDownloading s;
     appState := appState s; generationCount := f (generationCount s);
     cropQueue := cropQueue s; crop := crop s;
     completedCrop := completedCrop s; pastedImages := pastedImages s;
     isPasteModalOpen := isPasteModalOpen s; tasks := tasks s;
     nextId := nextId s; effects := effects s |}.

Definition setCropQueue (f : list QueueItem → list QueueItem) (s : State) : State :=
  {| uploadedImages := uploadedImages s;
     inspirationImages := inspirationImages s; userPrompt := userPrompt s;
     generatedImages := generatedImages s; isDownloading := isDownloading s;
     appState := appState s; generationCount := generationCount s;
     cropQueue := f (cropQueue s); crop := crop s;
     completedCrop := completedCrop s; pastedImages := pastedImages s;
     isPasteModalOpen := isPasteModalOpen s; tasks := tasks s;
     nextId := nextId s; effects := effects s |}.

Definition setCrop (f : option Crop → option Crop) (s : State) : State :=
  {| uploadedImages := uploadedImages s;
     inspirationImages := inspirationImages s; userPrompt := userPrompt s;
     generatedImages := generatedImages s; isDownloading := isDownloading s;
     appState := appState s; generationCount := generationCount s;
     cropQueue := cropQueue s; crop := f (crop s);
     completedCrop := completedCrop s; pastedImages := pastedImages s;
     isPasteModalOpen := isPasteModalOpen s; tasks := tasks s;
     nextId := nextId s; effects := effects s |}.

Definition setCompletedCrop (f : option PixelCrop → option PixelCrop) (s : State) : State :=
  {| uploadedImages := uploadedImages s;
     inspirationImages := inspirationImages s; userPrompt := userPrompt s;
     generatedImages := generatedImages s; isDownloading := isDownloading s;
     appState := appState s; generationCount := generationCount s;
     cropQueue := cropQueue s; crop := crop s;
     completedCrop := f (completedCrop s); pastedImages := pastedImages s;
     isPasteModalOpen := isPasteModalOpen s; tasks := tasks s;
     nextId := nextId s; effects := effects s |}.

Definition setPastedImages (f : list string → list string) (s : State) : State :=
  {| uploadedImages := uploadedImages s;
     inspirationImages := inspirationImages s; userPrompt := userPrompt s;
     generatedImages := generatedImages s; isDownloading := isDownloading s;
     appState := appState s; generationCount := generationCount s;
     cropQueue := cropQueue s; crop := crop s;
     completedCrop := completedCrop s; pastedImages := f (pastedImages s);
     isPasteModalOpen := isPasteModalOpen s; tasks := tasks s;
     nextId := nextId s; effects := effects s |}.

Definition setIsPasteModalOpen (f : bool → bool) (s : State) : State :=
  {| uploadedImages := uploadedImages s;
     inspirationImages := inspirationImages s; userPrompt := userPrompt s;
     generatedImages := generatedImages s; isDownloading := isDownloading s;
     appState := appState s; generationCount := generationCount s;
     cropQueue := cropQueue s; crop := crop s;
     completedCrop := completedCrop s; pastedImages := pastedImages s;
     isPasteModalOpen := f (isPasteModalOpen s); tasks := tasks s;
     nextId := nextId s; effects := effects s |}.

Definition setTasks (f : gmap nat Task → gmap nat Task) (s : State) : State :=
  {| uploadedImages := uploadedImages s;
     inspirationImages := inspirationImages s; userPrompt := userPrompt s;
     generatedImages := generatedImages s; isDownloading := isDownloading s;
     appState := appState s; generationCount := generationCount s;
     cropQueue := cropQueue s; crop := crop s;
     completedCrop := completedCrop s; pastedImages := pastedImages s;
     isPasteModalOpen := isPasteModalOpen s; tasks := f (tasks s);
     nextId := nextId s; effects := effects s |}.

(** A new promise gets the next number. *)
Definition spawn (t : Task) (s : State) : State :=
  {| uploadedImages := uploadedImages s;
     inspirationImages := inspirationImages s; userPrompt := userPrompt s;
     generatedImages := generatedImages s; isDownloading := isDownloading s;
     appState := appState s; generationCount := generationCount s;
     cropQueue := cropQueue s; crop := crop s;
     completedCrop := completedCrop s; pastedImages := pastedImages s;
     isPasteModalOpen := isPasteModalOpen s;
     tasks := <[nextId s := t]> (tasks s);
     nextId := S (nextId s); effects := effects s |}.

Definition emit (new : list Effect) (s : State) : State :=
  {| uploadedImages := uploadedImages s;
     inspirationImages := inspirationImages s; userPrompt := userPrompt s;
     generatedImages := generatedImages s; isDownloading := isDownloading s;
     appState := appState s; generationCount := generationCount s;
     cropQueue := cropQueue s; crop := crop s;
     completedCrop := completedCrop s; pastedImages := pastedImages s;
     isPasteModalOpen := isPasteModalOpen s; tasks := tasks s;
     nextId := nextId s; effects := effects s ++ new |}.

Definition finish (id : nat) (s : State) : State := setTasks (delete id) s.

(** ** Image intake *)

Definition categoryMax (type : ImageType) : nat :=
  match type with
  | Main => MAX_MAIN_IMAGES
  | Inspiration => MAX_INSPIRATION_IMAGES
  end.

Definition photoSet (type : ImageType) (s : State) : list string :=
  match type with
  | Main => uploadedImages s
  | Inspiration => inspirationImages s
  end.

(** The [paste] listener.  [activeTag] is [document.activeElement?.tagName]
    and [validImageFiles] the image files of the clipboard; the listener
    starts one read per file and waits for all of them. *)
Definition handlePaste (activeTag : option string) (validImageFiles : list File)
    (s : State) : State :=
  if bool_decide (activeTag = Some "TEXTAREA") || bool_decide (activeTag = Some "INPUT")
  then s
  else if 0 <? length validImageFiles
  then s |> spawn (ReadPasted validImageFiles)
  else s.

(** One pasted file: the promise resolves with a truthy [reader.result] and
    rejects otherwise. *)
Definition readPasted (file : File) : option string :=
  match file with
  | Some result => if truthy result then Some result else None
  | None => None
  end.

(** [Promise.all(filePromises).then(...).catch(...)] *)
Definition handlePaste_read (files : list File) (s : State) : State :=
  match mapM readPasted files with
  | Some dataUrls =>
      s |> setPastedImages (λ _, dataUrls)
        |> setIsPasteModalOpen (λ _, true)
  | None => s |> emit [console_error "Error reading pasted images:"]
  end.

(** A button of the paste modal.  [uploadedImages], [inspirationImages] and
    [pastedImages] are read from the render the modal belongs to, whose
    state is [captured]; the three setters apply to the current state. *)
Definition handleAddPastedImages (type : ImageType) (captured s : State) : State :=
  let maxImages :=
    match type with Main => MAX_MAIN_IMAGES | Inspiration => MAX_INSPIRATION_IMAGES end in
  let currentCount :=
    match type with
    | Main => length (uploadedImages captured)
    | Inspiration => length (inspirationImages captured)
    end in
  let availableSlots := (Z.of_nat maxImages - Z.of_nat currentCount)%Z in
  if (availableSlots <=? 0)%Z then s
  else
    let imagesToAdd := slice (pastedImages captured) 0 (Some availableSlots) in
    let newQueueItems :=
      (λ dataUrl, {| dataUrl := Some dataUrl; type := type |}) <$> imagesToAdd in
    s |> setCropQueue (λ prev, prev ++ newQueueItems)
      |> setIsPasteModalOpen (λ _, false)
      |> setPastedImages (λ _, []).

Definition handleCancelPaste (s : State) : State :=
  s |> setIsPasteModalOpen (λ _, false)
    |> setPastedImages (λ _, []).

(** [targetFiles] is [e.target.files], [None] when it is [null].  The reads
    are started here, with the truncation decided from the PhotoSet as it
    is now; the queue is extended when all of them have ended.  (Clearing
    [e.target.value] concerns the DOM only.) *)
Definition handleImageUpload (targetFiles : option (list File)) (type : ImageType)
    (s : State) : State :=
  match targetFiles with
  | None => s
  | Some targetFiles =>
      let maxImages :=
        match type with Main => MAX_MAIN_IMAGES | Inspiration => MAX_INSPIRATION_IMAGES end in
      let currentCount :=
        match type with
        | Main => length (uploadedImages s)
        | Inspiration => length (inspirationImages s)
        end in
      let files :=
        slice targetFiles 0 (Some (Z.of_nat maxImages - Z.of_nat currentCount)%Z) in
      let newQueueItems :=
        (λ file, {| dataUrl := file; type := type |}) <$> files in
      s |> spawn (ReadUpload newQueueItems)
  end.

(** [Promise.all(newQueueItems).then(items => ...)] *)
Definition handleImageUpload_read (items : list QueueItem) (s : State) : State :=
  s |> setCropQueue (λ prev, prev ++ items).

Definition removeMainImage (index : nat) (s : State) : State :=
  s |> setUploadedImages (λ prev, filter_index index prev).

Definition removeInspirationImage (index : nat) (s : State) : State :=
  s |> setInspirationImages (λ prev, filter_index index prev).

(** ** Crop pipeline *)

(** [image] tells whether [imgRef.current] is set; [canvas] is [None] when
    [canvas.getContext('2d')] gives [null], so that [canvasPreview] throws,
    and otherwise the data URL that [canvas.toDataURL] returns for the
    selected region.  The function is [async] and nothing awaits it: the
    throw ends as an unhandled rejection.  [completedCrop] and [cropQueue]
    (for the guard and for [currentItem]) are read from the render the
    crop modal belongs to, whose state is [captured]; [imgRef.current] is
    a ref and the setters are updaters, so they concern the present. *)
Definition handleCropConfirm (image : bool) (canvas : option string)
    (captured s : State) : State :=
  match image, completedCrop captured, cropQueue captured with
  | true, Some _, currentItem :: _ =>
      match canvas with
      | None => s |> emit [unhandled (ErrorObject "No 2d context")]
      | Some croppedDataUrl =>
          s |> match type currentItem with
               | Main => setUploadedImages (λ prev, prev ++ [croppedDataUrl])
               | Inspiration => setInspirationImages (λ prev, prev ++ [croppedDataUrl])
               end
            |> setAppState (λ _, PhotosUploaded)
            |> setCropQueue (λ q, slice q 1 None)
            |> setCrop (λ _, None)
            |> setCompletedCrop (λ _, None)
      end
  | _, _, _ => s
  end.

Definition handleCropCancel (s : State) : State :=
  s |> setCropQueue (λ q, slice q 1 None)
    |> setCrop (λ _, None)
    |> setCompletedCrop (λ _, None).

(** ** Generation *)

Definition pendingImage : GeneratedImage :=
  {| status := Pending; url := None; error := None |}.

(** The [.then] and [.catch] of one request. *)
Definition imageOf (outcome : Settled) : GeneratedImage :=
  match outcome with
  | Fulfilled resultUrl => {| status := Done; url := Some resultUrl; error := None |}
  | Rejected err => {| status := Error; url := None; error := Some (errorMessage err) |}
  end.

(** After [await Promise.all(generationPromises)]: runs once no promise of
    the batch is unsettled. *)
Definition handleGenerateClick_joined (id : nat) (s : State) : State :=
  match tasks s !! id with
  | Some (Generation []) =>
      s |> finish id
        |> setAppState (λ _, ResultsShown)
  | _ => s
  end.

Definition handleGenerateClick (s : State) : State :=
  if (length (uploadedImages s) =? 0) || (length (inspirationImages s) =? 0) then s
  else
    let id := nextId s in
    let initialImages := replicate (generationCount s) (Item pendingImage) in
    s |> setAppState (λ _, Generating)
      |> setGeneratedImages (λ _, initialImages)
      |> emit (replicate (generationCount s)
                 (generateVibeBasedImage (uploadedImages s) (inspirationImages s)
                    (userPrompt s)))
      |> spawn (Generation (seq 0 (generationCount s)))
      |> handleGenerateClick_joined id.

(** Request [i] of batch [id] settles: the [.catch] logs a failure, the
    callback registered in the loop writes slot [i], and, the callbacks of
    [Promise.all] coming after it, the batch is joined when [i] was the last. *)
Definition handleGenerateClick_settled (id i : nat) (outcome : Settled)
    (s : State) : State :=
  match tasks s !! id with
  | Some (Generation remaining) =>
      if bool_decide (i ∈ remaining) then
        s |> emit match outcome with
                  | Fulfilled _ => []
                  | Rejected _ =>
                      [console_error
                         ("Failed to generate image slot " +:+ pretty (i + 1) +:+ ":")]
                  end
          |> setGeneratedImages (λ prev, assign (spread prev) i (Item (imageOf outcome)))
          |> setTasks <[id := Generation (filter (λ j, j ≠ i) remaining)]>
          |> handleGenerateClick_joined id
      else s
  | _ => s
  end.

Definition handleRegenerateSlot (index : nat) (s : State) : State :=
  if (length (uploadedImages s) =? 0) || (length (inspirationImages s) =? 0) then s
  else if bool_decide (status_at (generatedImages s) index = Some Pending) then s
  else
    s |> setGeneratedImages (λ prev, assign (spread prev) index (Item pendingImage))
      |> emit [generateVibeBasedImage (uploadedImages s) (inspirationImages s)
                 (userPrompt s)]
      |> spawn (Regeneration index).

(** The rest of [handleRegenerateSlot], after its [await]. *)
Definition handleRegenerateSlot_settled (index : nat) (outcome : Settled)
    (s : State) : State :=
  match outcome with
  | Fulfilled resultUrl =>
      s |> setGeneratedImages (λ prev,
             assign (spread prev) index
               (Item {| status := Done; url := Some resultUrl; error := None |}))
  | Rejected err =>
      let errorMessage := errorMessage err in
      s |> setGeneratedImages (λ prev,
             assign (spread prev) index
               (Item {| status := Error; url := None; error := Some errorMessage |}))
        |> emit [console_error
                   ("Failed to regenerate image for slot " +:+ pretty index +:+ ":")]
  end.

Definition handleReset (s : State) : State :=
  s |> setUploadedImages (λ _, [])
    |> setInspirationImages (λ _, [])
    |> setGeneratedImages (λ _, [])
    |> setUserPrompt (λ _, "")
    |> setAppState (λ _, Idle).

(** ** Downloads *)

Definition handleDownloadIndividualImage (index : nat) (s : State) : State :=
  match generatedImages s !! index with
  | Some (Item image) =>
      match status image, url image with
      | Done, Some u =>
          if truthy u
          then s |> emit [download u ("perfect-shot-" +:+ pretty (index + 1) +:+ ".jpg")]
          else s
      | _, _ => s
      end
  | _ => s
  end.

(** The [forEach] of [handleDownloadAlbum], from position [index] on.
    [forEach] passes over holes; on [undefined] the callback reads
    [image.status] and throws, which is the result [None]. *)
Fixpoint collect (index : nat) (images : list Cell)
    (imageData : gmap string string) : option (gmap string string) :=
  match images with
  | [] => Some imageData
  | Hole :: rest => collect (S index) rest imageData
  | Undefined :: _ => None
  | Item image :: rest =>
      match status image, url image with
      | Done, Some u =>
          if truthy u
          then collect (S index) rest (<[label index := u]> imageData)
          else collect (S index) rest imageData
      | _, _ => collect (S index) rest imageData
      end
  end.

Definition handleDownloadAlbum (s : State) : State :=
  let s := s |> setIsDownloading (λ _, true) in
  match collect 0 (generatedImages s) ∅ with
  | Some imageData =>
      if size imageData =? 0 then
        s |> emit [alert "No images have been successfully generated to create an album."]
          |> setIsDownloading (λ _, false)
      else
        s |> emit [createAlbumPage imageData]
          |> spawn AlbumPage
  | None =>
      s |> emit [console_error "Failed to create or download album:";
                 alert "Sorry, there was an error creating your album. Please try again."]
        |> setIsDownloading (λ _, false)
  end.

(** The rest of [handleDownloadAlbum], after [await createAlbumPage]. *)
Definition handleDownloadAlbum_settled (outcome : Settled) (s : State) : State :=
  match outcome with
  | Fulfilled albumDataUrl =>
      s |> emit [download albumDataUrl "perfect-shot-album.jpg"]
        |> setIsDownloading (λ _, false)
  | Rejected _ =>
      s |> emit [console_error "Failed to create or download album:";
                 alert "Sorry, there was an error creating your album. Please try again."]
        |> setIsDownloading (λ _, false)
  end.

(** ** Events *)

(** The two children of [<AnimatePresence>]. *)
Inductive Modal := PasteModal | CropModal.

(** What can happen to the component: the user acts on a control, a
    promise settles, or the exit animation of a modal ends.  A settling
    event names the promise by its number and carries what the outside
    world decided (the outcome of the image service or of the composer). *)
Inductive Event :=
| Paste (activeTag : option string) (validImageFiles : list File)
| PastedRead (id : nat)
| AddPastedImages (type : ImageType)
| CancelPaste
| ImageUpload (targetFiles : option (list File)) (type : ImageType)
| UploadRead (id : nat)
| RemoveMainImage (index : nat)
| RemoveInspirationImage (index : nat)
| CropChange (percentCrop : Crop)
| CropComplete (c : PixelCrop)
| CropConfirm (image : bool) (canvas : option string)
| CropCancel
| PromptChange (value : string)
| CountChange (value : nat)
| GenerateClick
| GenerationSettled (id i : nat) (outcome : Settled)
| RegenerateSlot (index : nat)
| RegenerationSettled (id : nat) (outcome : Settled)
| Reset
| DownloadIndividualImage (index : nat)
| DownloadAlbum
| AlbumPageSettled (id : nat) (outcome : Settled)
| ExitEnded (modal : Modal).

(** An event met by the handlers of the latest render, which read the
    current state.  A promise settles once: a settling event for a promise
    that is not in flight changes nothing.  The end of an exit animation
    changes no state cell. *)
Definition step (e : Event) (s : State) : State :=
  match e with
  | Paste activeTag validImageFiles => handlePaste activeTag validImageFiles s
  | PastedRead id =>
      match tasks s !! id with
      | Some (ReadPasted files) => s |> finish id |> handlePaste_read files
      | _ => s
      end
  | AddPastedImages type => handleAddPastedImages type s s
  | CancelPaste => handleCancelPaste s
  | ImageUpload targetFiles type => handleImageUpload targetFiles type s
  | UploadRead id =>
      match tasks s !! id with
      | Some (ReadUpload items) => s |> finish id |> handleImageUpload_read items
      | _ => s
      end
  | RemoveMainImage index => removeMainImage index s
  | RemoveInspirationImage index => removeInspirationImage index s
  (* [onChange] of [ReactCrop]; [onImageLoad] sets [crop] in the same way *)
  | CropChange percentCrop => s |> setCrop (λ _, Some percentCrop)
  | CropComplete c => s |> setCompletedCrop (λ _, Some c)
  | CropConfirm image canvas => handleCropConfirm image canvas s s
  | CropCancel => handleCropCancel s
  | PromptChange value => s |> setUserPrompt (λ _, value)
  | CountChange value => s |> setGenerationCount (λ _, value)
  | GenerateClick => handleGenerateClick s
  | GenerationSettled id i outcome => handleGenerateClick_settled id i outcome s
  | RegenerateSlot index => handleRegenerateSlot index s
  | RegenerationSettled id outcome =>
      match tasks s !! id with
      | Some (Regeneration index) =>
          s |> finish id |> handleRegenerateSlot_settled index outcome
      | _ => s
      end
  | Reset => handleReset s
  | DownloadIndividualImage index => handleDownloadIndividualImage index s
  | DownloadAlbum => handleDownloadAlbum s
  | AlbumPageSettled id outcome =>
      match tasks s !! id with
      | Some AlbumPage => s |> finish id |> handleDownloadAlbum_settled outcome
      | _ => s
      end
  | ExitEnded _ => s
  end.

Definition run (trace : list Event) (s : State) : State :=
  foldl (λ s e, step e s) s trace.

(** ** The view

    What is mounted, and the render each mounted control belongs to.

    The inputs, the result cards and the buttons below them are returned by
    the latest render or not at all; their handlers read the current state.
    (A thumbnail that was removed from a PhotoSet leaves with an animation
    too, but its button calls [removeMainImage] or [removeInspirationImage]
    with the index it had, which is what the button now at that index does,
    or nothing when the PhotoSet has become that short.)

    The paste modal and the crop modal are children of [<AnimatePresence>]
    with an [exit] animation.  When a render does not return a modal that
    is mounted, the modal stays mounted, with the elements and handlers of
    the last render that returned it, until its exit animation has ended;
    when a later render returns it again, it is that render's.  When an
    exit animation ends is for the library to say: it is an event of its
    own, [ExitEnded], which can come at any time and also at once.  (The
    two modals carry no [key]; should the library for that reason take out
    a leaving modal at once while the other is on the screen, that is an
    [ExitEnded] right after the event.)

    The render of the result cards reads [image.status] of every element of
    [generatedImages] that is not a hole.  On an [undefined] element this
    throws; no error boundary is there, so React unmounts the whole tree,
    with the [paste] listener.  Promises in flight still settle and their
    continuations still log, alert and download, but no cell is shown any
    more and no control is left. *)

Definition inputsShown (s : State) : bool :=
  bool_decide (appState s = Idle) || bool_decide (appState s = PhotosUploaded).

Definition resultsShown (s : State) : bool :=
  bool_decide (appState s = Generating) || bool_decide (appState s = ResultsShown).

Definition pasteModalShown (s : State) : bool :=
  isPasteModalOpen s && (0 <? length (pastedImages s)).

Definition cropModalShown (s : State) : bool :=
  0 <? length (cropQueue s).

Definition isGenerateButtonDisabled (s : State) : bool :=
  (length (uploadedImages s) =? 0) || (length (inspirationImages s) =? 0)
  || bool_decide (appState s = Generating).

(** [generatedImages.map] passes over holes and renders one [PhotoCard] per
    image record, with the callbacks [onRegenerate] and [onDownload] for its
    position.  ([PhotoCard] itself is another component; its callbacks are
    taken to be within reach whenever the card is rendered.) *)
Definition cardShown (index : nat) (s : State) : bool :=
  resultsShown s &&
  match generatedImages s !! index with
  | Some (Item _) => true
  | _ => false
  end.

(** [generatedImages.map((image, index) => ... status={image.status} ...)],
    rendered in the generating and in the results view. *)
Definition renderThrows (s : State) : bool :=
  resultsShown s &&
  existsb (λ c, match c with Undefined => true | _ => false end) (generatedImages s).

(** The state cells, the render that each mounted modal belongs to ([None]
    when the modal is not mounted), and whether the tree is gone. *)
Record View := {
  cells : State;
  pasteModal : option State;
  cropModal : option State;
  unmounted : bool
}.

(** The tree after the cells have become [s]. *)
Definition render (s : State) (v : View) : View :=
  if unmounted v || renderThrows s then
    {| cells := s; pasteModal := None; cropModal := None; unmounted := true |}
  else
    {| cells := s;
       pasteModal := if pasteModalShown s then Some s else pasteModal v;
       cropModal := if cropModalShown s then Some s else cropModal v;
       unmounted := false |}.

(** The component mounted with the cells [s]. *)
Definition mount (s : State) : View :=
  render s {| cells := s; pasteModal := None; cropModal := None; unmounted := false |}.

(** A modal is closing: mounted, and not returned by the latest render. *)
Definition closing (modal : Modal) (v : View) : bool :=
  match modal with
  | PasteModal => bool_decide (is_Some (pasteModal v)) && negb (pasteModalShown (cells v))
  | CropModal => bool_decide (is_Some (cropModal v)) && negb (cropModalShown (cells v))
  end.

(** Which events the mounted tree can receive: the conditions under which
    an element is rendered and its [disabled] attribute, both computed by
    the render the element belongs to.  A promise settles whatever the tree
    is; an exit animation ends only where one is running. *)
Definition enabled (e : Event) (v : View) : bool :=
  let s := cells v in
  match e with
  | Paste _ _ => negb (unmounted v)
  | AddPastedImages type =>
      negb (unmounted v) &&
      match pasteModal v with
      | Some captured => negb (categoryMax type <=? length (photoSet type captured))
      | None => false
      end
  | CancelPaste => negb (unmounted v) && bool_decide (is_Some (pasteModal v))
  | ImageUpload _ type =>
      negb (unmounted v) && inputsShown s
      && negb (categoryMax type <=? length (photoSet type s))
  | RemoveMainImage index =>
      negb (unmounted v) && inputsShown s && (index <? length (uploadedImages s))
  | RemoveInspirationImage index =>
      negb (unmounted v) && inputsShown s && (index <? length (inspirationImages s))
  | CropChange _ | CropComplete _ | CropConfirm _ _ | CropCancel =>
      negb (unmounted v) && bool_decide (is_Some (cropModal v))
  | PromptChange _ => negb (unmounted v) && inputsShown s
  | CountChange value =>
      negb (unmounted v) && inputsShown s && (1 <=? value) && (value <=? 8)
  | GenerateClick =>
      negb (unmounted v) && inputsShown s && negb (isGenerateButtonDisabled s)
  | RegenerateSlot index | DownloadIndividualImage index =>
      negb (unmounted v) && cardShown index s
  | DownloadAlbum =>
      negb (unmounted v) && bool_decide (appState s = ResultsShown)
      && negb (isDownloading s)
  | Reset => negb (unmounted v) && bool_decide (appState s = ResultsShown)
  | PastedRead _ | UploadRead _ | GenerationSettled _ _ _
  | RegenerationSettled _ _ | AlbumPageSettled _ _ => true
  | ExitEnded modal => closing modal v
  end.

(** The handler that the control holds, called on the cells: for the two
    handlers of the modals that read state cells, the render is the one the
    mounted modal belongs to. *)
Definition call (e : Event) (v : View) : State :=
  match e with
  | AddPastedImages type =>
      match pasteModal v with
      | Some captured => handleAddPastedImages type captured (cells v)
      | None => cells v
      end
  | CropConfirm image canvas =>
      match cropModal v with
      | Some captured => handleCropConfirm image canvas captured (cells v)
      | None => cells v
      end
  | _ => step e (cells v)
  end.

(** The exit animation of a modal has ended: the modal is taken out. *)
Definition exit (modal : Modal) (v : View) : View :=
  match modal with
  | PasteModal =>
      {| cells := cells v; pasteModal := None; cropModal := cropModal v;
         unmounted := unmounted v |}
  | CropModal =>
      {| cells := cells v; pasteModal := pasteModal v; cropModal := None;
         unmounted := unmounted v |}
  end.

(** An event as the mounted component receives it: a control that is not
    mounted or is disabled calls no handler; after a handler or a
    continuation has run, React renders. *)
Definition dispatch (e : Event) (v : View) : View :=
  if enabled e v then
    match e with
    | ExitEnded modal => exit modal v
    | _ => render (call e v) v
    end
  else v.

Definition interact (trace : list Event) (v : View) : View :=
  foldl (λ v e, dispatch e v) v trace.

(** ** Vocabulary of the statements *)

(** The other category. *)
Definition other (type : ImageType) : ImageType :=
  match type with
  | Main => Inspiration
  | Inspiration => Main
  end.

(** The cells an intake has no business with: everything but the crop
    queue, the paste buffer and the flag of the paste modal. *)
Definition intake_frame (s s' : State) : Prop :=
  uploadedImages s' = uploadedImages s ∧
  inspirationImages s' = inspirationImages s ∧
  userPrompt s' = userPrompt s ∧
  generatedImages s' = generatedImages s ∧
  isDownloading s' = isDownloading s ∧
  appState s' = appState s ∧
  generationCount s' = generationCount s ∧
  crop s' = crop s ∧
  completedCrop s' = completedCrop s ∧
  effects s' = effects s.

(** The settling of the requests of batch [id] in the given order, request
    [i] with the outcome [outcome i]. *)
Definition settlements (id : nat) (outcome : nat → Settled) (order : list nat) :
    list Event :=
  (λ i, GenerationSettled id i (outcome i)) <$> order.

(** The writes those settlings make to the slot array. *)
Definition write_slots (outcome : nat → Settled) (a : list Cell) (order : list nat) :
    list Cell :=
  foldl (λ a i, assign (spread a) i (Item (imageOf (outcome i)))) a order.

(** The faults that nothing caught. *)
Definition uncaught (s : State) : list Thrown :=
  omap (λ e, match e with unhandled err => Some err | _ => None end) (effects s).

(** The requests made to the image service. *)
Definition requests (s : State) : list (list string * list string * string) :=
  omap (λ e, match e with
             | generateVibeBasedImage uploaded inspiration prompt =>
                 Some (uploaded, inspiration, prompt)
             | _ => None
             end) (effects s).

(** The image a slot offers to the album: the [url] of a done slot when it
    is a non-empty string. *)
Definition doneImage (c : Cell) : option string :=
  match c with
  | Item image =>
      match status image, url image with
      | Done, Some u => if truthy u then Some u else None
      | _, _ => None
      end
  | _ => None
  end.

Definition done_count (images : list Cell) : nat :=
  length (omap doneImage images).

(** Slot [i] is done and holds the image [u], a non-empty string. *)
Definition done_with (images : list Cell) (i : nat) (u : string) : Prop :=
  ∃ image, images !! i = Some (Item image)
           ∧ status image = Done ∧ url image = Some u ∧ u ≠ "".

(** A crop selection and the confirmation of the head of the queue with it. *)
Definition someCrop : PixelCrop :=
  {| unit := px; x := 0; y := 0; width := 64; height := 64 |}.

Definition cropAndSave : list Event :=
  [CropComplete someCrop; CropConfirm true (Some "data:image/jpeg;base64,crop")].

(** A user fills the crop queue up to the maximum of a category with one
    upload, pastes one more image while the queue is waiting and adds it to
    the same category, and then crops and saves every entry. *)
Definition one_too_many (type : ImageType) : list Event :=
  [ImageUpload (Some (replicate (categoryMax type) (Some "data:image/png;base64,file")))
     type;
   UploadRead 0;
   Paste (Some "BODY") [Some "data:image/png;base64,pasted"];
   PastedRead 1;
   AddPastedImages type]
  ++ mjoin (replicate (S (categoryMax type)) cropAndSave).

(** Two states hold the same in every state cell of the component. *)
Definition same_cells (s s' : State) : Prop :=
  uploadedImages s' = uploadedImages s ∧
  inspirationImages s' = inspirationImages s ∧
  userPrompt s' = userPrompt s ∧
  generatedImages s' = generatedImages s ∧
  isDownloading s' = isDownloading s ∧
  appState s' = appState s ∧
  generationCount s' = generationCount s ∧
  cropQueue s' = cropQueue s ∧
  crop s' = crop s ∧
  completedCrop s' = completedCrop s ∧
  pastedImages s' = pastedImages s ∧
  isPasteModalOpen s' = isPasteModalOpen s.

(** In the idle view no photo is held. *)
Definition idle_is_empty (s : State) : Prop :=
  appState s = Idle → uploadedImages s = [] ∧ inspirationImages s = [].

#[global] Instance ImageType_eq_dec : EqDecision ImageType.
Proof. solve_decision. Defined.

(** Promise numbers are given out once: the numbers still to come name no
    promise in flight. *)
Definition fresh (s : State) : Prop :=
  ∀ id, nextId s ≤ id → tasks s !! id = None.

(** The promises in flight, each counted with a weight. *)
Definition weigh (weight : Task → nat) (m : gmap nat Task) : nat :=
  sum_list_with (λ p, weight p.2) (map_to_list m).

(** A composition of the album in flight counts one. *)
Definition composing (t : Task) : nat :=
  match t with
  | AlbumPage => 1
  | _ => 0
  end.

(** The entries of one category in a list of queue entries. *)
Definition ofType (category : ImageType) (items : list QueueItem) : nat :=
  length (filter (λ item, type item = category) items).

(** The files of one category that an upload is still reading. *)
Definition beingRead (category : ImageType) (t : Task) : nat :=
  match t with
  | ReadUpload items => ofType category items
  | _ => 0
  end.

(** The photos of a category together with those on their way to it: in
    the PhotoSet, waiting in the crop queue, or still being read. *)
Definition pipeline (category : ImageType) (s : State) : nat :=
  length (photoSet category s) + ofType category (cropQueue s)
  + weigh (beingRead category) (tasks s).

(** A view as [render] leaves it: of an unmounted tree no modal is left;
    in a mounted tree the latest render has not thrown, and a modal that it
    returns belongs to it. *)
Definition rendered (v : View) : Prop :=
  if unmounted v then pasteModal v = None ∧ cropModal v = None
  else renderThrows (cells v) = false ∧
       (pasteModalShown (cells v) = true → pasteModal v = Some (cells v)) ∧
       (cropModalShown (cells v) = true → cropModal v = Some (cells v)).

(** [P] holds of every event of the trace and the view that it meets. *)
Fixpoint along (P : Event → View → Prop) (trace : list Event) (v : View) : Prop :=
  match trace with
  | [] => True
  | e :: trace => P e v ∧ along P trace (dispatch e v)
  end.

(** An intake for the category (an upload or the adding of a paste) comes
    when nothing of that category is waiting in the crop queue or being
    read. *)
Definition intake_waits (category : ImageType) (e : Event) (v : View) : Prop :=
  match e with
  | ImageUpload _ type | AddPastedImages type =>
      type = category →
      ofType category (cropQueue (cells v)) = 0
      ∧ weigh (beingRead category) (tasks (cells v)) = 0
  | _ => True
  end.

(** The adding of a paste and a crop confirm are made on a modal that the
    latest render returned, not on one that is closing. *)
Definition on_latest_render (e : Event) (v : View) : Prop :=
  enabled e v = true →
  match e with
  | AddPastedImages _ => pasteModalShown (cells v) = true
  | CropConfirm _ _ => cropModalShown (cells v) = true
  | _ => True
  end.

(** The button that starts the album is disabled exactly while a
    composition is in flight, and there is at most one. *)
Definition one_composition (s : State) : Prop :=
  weigh composing (tasks s) = if isDownloading s then 1 else 0.

(** A user crops and saves, one after the other, with the cropped images
    [urls]. *)
Definition cropAll (urls : list string) : list Event :=
  mjoin ((λ u, [CropComplete someCrop; CropConfirm true (Some u)]) <$> urls).

(** The cropped images that go to one category when [urls] are saved for
    the queue entries [entries], first with first. *)
Definition committed (category : ImageType) (entries : list QueueItem)
    (urls : list string) : list string :=
  (filter (λ p, type p.1 = category) (zip entries urls)).*2.

(** The settling of a promise, as opposed to an act of the user or the end
    of an animation. *)
Definition settles (e : Event) : bool :=
  match e with
  | PastedRead _ | UploadRead _ | GenerationSettled _ _ _
  | RegenerationSettled _ _ | AlbumPageSettled _ _ => true
  | _ => false
  end.

(** A user commits a photo of each kind and gets three results, asks for
    the third again and starts over while that request is in flight;
    commits a photo of each kind again and starts a batch of one.  Then the
    request of the first round settles, and after it the request of the
    batch. *)
Definition late_regeneration : list Event :=
  let photo := λ type id,
    [ImageUpload (Some [Some "data:image/png;base64,file"]) type; UploadRead id]
    ++ cropAndSave in
  photo Main 0 ++ photo Inspiration 1
  ++ [CountChange 3; GenerateClick;
      GenerationSettled 2 0 (Fulfilled "data:r1");
      GenerationSettled 2 1 (Fulfilled "data:r2");
      GenerationSettled 2 2 (Fulfilled "data:r3");
      RegenerateSlot 2; Reset]
  ++ photo Main 4 ++ photo Inspiration 5
  ++ [CountChange 1; GenerateClick;
      RegenerationSettled 3 (Fulfilled "data:late");
      GenerationSettled 6 0 (Fulfilled "data:new")].

(** * Properties *)

(** ** Facts about the helpers *)

Lemma slice_prefix {A} (l : list A) (n : nat) :
  slice l 0 (Some (Z.of_nat n)) = take n l.
Proof.
  unfold slice, relative_index. simpl.
  destruct (Z.of_nat n <? 0)%Z eqn:E; [apply Z.ltb_lt in E; lia|].
  rewrite (Z.min_l 0) by lia. rewrite Z.sub_0_r.
  change (Z.to_nat 0) with 0. rewrite drop_0.
  destruct (decide (n ≤ length l)) as [Hle|Hgt].
  - rewrite Z.min_l by lia. by rewrite Nat2Z.id.
  - rewrite Z.min_r by lia. rewrite Nat2Z.id.
    rewrite !take_ge; [done|lia..].
Qed.

Lemma slice_rest {A} (q : list A) : slice q 1 None = tail q.
Proof.
  unfold slice, relative_index. destruct q as [|a q]; [done|].
  change (1 <? 0)%Z with false. cbn [length tail]. rewrite Z.min_l by lia.
  replace (Z.to_nat (Z.of_nat (S (length q)) - 1)) with (length q) by lia.
  change (Z.to_nat 1) with 1. simpl. by rewrite take_ge.
Qed.

Lemma length_filter_index {A} (index : nat) (l : list A) :
  length (filter_index index l) ≤ length l.
Proof.
  unfold filter_index. rewrite length_fmap.
  etrans; [apply length_filter|]. by rewrite length_imap.
Qed.

Lemma spread_dense (a : list Cell) :
  Forall (λ c, c ≠ Hole) a → spread a = a.
Proof.
  unfold spread. induction 1 as [|c a Hc _ IH]; [done|].
  rewrite fmap_cons, IH. by destruct c.
Qed.

Lemma length_spread (a : list Cell) : length (spread a) = length a.
Proof. unfold spread. by rewrite length_fmap. Qed.

Lemma assign_insert (a : list Cell) (i : nat) (v : Cell) :
  i < length a → assign a i v = <[i := v]> a.
Proof.
  revert i. induction a as [|c a IH]; intros [|i] Hi; simpl in *; try lia; [done|].
  f_equal. apply IH. lia.
Qed.

Lemma assign_lookup (a : list Cell) (i : nat) (v : Cell) :
  assign a i v !! i = Some v.
Proof.
  revert a. induction i as [|i IH]; intros [|c a]; simpl; try done; apply IH.
Qed.

Lemma length_assign (a : list Cell) (i : nat) (v : Cell) :
  length (assign a i v) = max (length a) (S i).
Proof.
  revert a. induction i as [|i IH]; intros [|c a]; simpl; rewrite ?IH; simpl; lia.
Qed.

Lemma imageOf_settled (outcome : Settled) :
  status (imageOf outcome) = Done ∨ status (imageOf outcome) = Error.
Proof. destruct outcome; simpl; auto. Qed.

Example slice_keeps_the_first : slice [1; 2; 3; 4; 5] 0 (Some 3%Z) = [1; 2; 3].
Proof. reflexivity. Qed.

Example slice_beyond_the_end : slice [1; 2] 0 (Some 7%Z) = [1; 2].
Proof. reflexivity. Qed.

Example slice_negative_end : slice [1; 2; 3; 4; 5] 0 (Some (-1)%Z) = [1; 2; 3; 4].
Proof. reflexivity. Qed.

Example slice_of_nothing : slice (@nil nat) 1 None = [].
Proof. reflexivity. Qed.

Example filter_index_removes_one : filter_index 1 ["a"; "b"; "c"] = ["a"; "c"].
Proof. reflexivity. Qed.

Example filter_index_out_of_range : filter_index 3 ["a"; "b"; "c"] = ["a"; "b"; "c"].
Proof. reflexivity. Qed.

Example assign_inside :
  assign [Item pendingImage; Hole] 1 Undefined = [Item pendingImage; Undefined].
Proof. reflexivity. Qed.

Example assign_beyond_the_end :
  assign [] 2 (Item pendingImage) = [Hole; Hole; Item pendingImage].
Proof. reflexivity. Qed.

Example label_counts_from_one : label 0 = "Result 1" ∧ label 9 = "Result 10".
Proof. split; reflexivity. Qed.

(** ** Facts about the view *)

Lemma cells_render (s : State) (v : View) : cells (render s v) = s.
Proof. unfold render. by destruct (unmounted v || renderThrows s). Qed.

Lemma cells_mount (s : State) : cells (mount s) = s.
Proof. apply cells_render. Qed.

Lemma cells_exit (modal : Modal) (v : View) : cells (exit modal v) = cells v.
Proof. by destruct modal. Qed.

(** The cells after an event: those before, or what the handler that the
    control holds has made of them. *)
Lemma cells_dispatch (e : Event) (v : View) :
  cells (dispatch e v)
  = if enabled e v
    then match e with ExitEnded _ => cells v | _ => call e v end
    else cells v.
Proof.
  unfold dispatch. destruct (enabled e v); [|done].
  destruct e; rewrite ?cells_render, ?cells_exit; done.
Qed.

Lemma rendered_render (s : State) (v : View) : rendered (render s v).
Proof.
  unfold rendered, render.
  destruct (unmounted v || renderThrows s) eqn:Hgone; [done|].
  apply orb_false_iff in Hgone as [_ Hfine]. cbn [unmounted cells pasteModal cropModal].
  split; [done|]. split; by intros ->.
Qed.

Lemma rendered_mount (s : State) : rendered (mount s).
Proof. apply rendered_render. Qed.

Lemma rendered_dispatch (e : Event) (v : View) : rendered v → rendered (dispatch e v).
Proof.
  intros Hv. unfold dispatch. destruct (enabled e v) eqn:Henabled; [|done].
  destruct e; try apply rendered_render.
  cbn [enabled] in Henabled. unfold rendered, exit, closing in *.
  destruct modal; cbn [unmounted cells pasteModal cropModal] in *;
    apply andb_true_iff in Henabled as [_ Hhidden%negb_true_iff];
    destruct (unmounted v); try tauto;
    destruct Hv as (Hfine & Hpaste & Hcrop); rewrite Hhidden;
    repeat split; done.
Qed.

Lemma unmounted_render (s : State) (v : View) :
  unmounted (render s v) = unmounted v || renderThrows s.
Proof. unfold render. by destruct (unmounted v || renderThrows s). Qed.

Lemma unmounted_exit (modal : Modal) (v : View) :
  unmounted (dispatch (ExitEnded modal) v) = unmounted v.
Proof. unfold dispatch. destruct (enabled _ v); [by destruct modal|done]. Qed.

Lemma cropModal_render (s : State) (v : View) :
  unmounted (render s v) = false →
  cropModal (render s v) = if cropModalShown s then Some s else cropModal v.
Proof. unfold render. by destruct (unmounted v || renderThrows s). Qed.

Lemma pasteModal_render (s : State) (v : View) :
  unmounted (render s v) = false →
  pasteModal (render s v) = if pasteModalShown s then Some s else pasteModal v.
Proof. unfold render. by destruct (unmounted v || renderThrows s). Qed.

(** A modal that the latest render returned calls the handler of that
    render, which reads the current state: the event is a [step]. *)
Lemma call_latest (e : Event) (v : View) :
  rendered v → enabled e v = true → on_latest_render e v →
  call e v = step e (cells v).
Proof.
  unfold rendered, on_latest_render. intros Hv Henabled Hlatest.
  specialize (Hlatest Henabled).
  destruct e; try done; cbn [call step enabled] in *;
    apply andb_true_iff in Henabled as [Hmounted%negb_true_iff _];
    rewrite Hmounted in Hv; destruct Hv as (_ & Hpaste & Hcrop).
  - by rewrite (Hpaste Hlatest).
  - by rewrite (Hcrop Hlatest).
Qed.

(** ** Reset *)

(** C7.  From any state, [handleReset] leaves both PhotoSets, the slot
    array and the instructions empty and the view state idle; the crop queue,
    the crop selection, the paste buffer and the promises in flight (file
    reads that will still extend the queue among them) are what they were,
    so the crop modal goes on asking about the entries that wait. *)
Theorem handleReset_clears_all_but_queue (s : State) :
  let s' := step Reset s in
  uploadedImages s' = [] ∧
  inspirationImages s' = [] ∧
  generatedImages s' = [] ∧
  userPrompt s' = "" ∧
  appState s' = Idle ∧
  cropQueue s' = cropQueue s ∧
  crop s' = crop s ∧
  completedCrop s' = completedCrop s ∧
  pastedImages s' = pastedImages s ∧
  isPasteModalOpen s' = isPasteModalOpen s ∧
  tasks s' = tasks s ∧
  cropModalShown s' = cropModalShown s.
Proof. by repeat split. Qed.

(** ** Paste into a full PhotoSet *)

(** C10.  When the PhotoSet of the chosen category is at (or over) its
    maximum, [handleAddPastedImages] returns the state it was given: queue
    and PhotoSets are untouched, the pasted images stay in the buffer and an
    open paste modal stays open.  Below the maximum the same call closes the
    modal and empties the buffer. *)
Theorem handleAddPastedImages_full_changes_nothing (s : State) (type : ImageType) :
  let s' := step (AddPastedImages type) s in
  (categoryMax type ≤ length (photoSet type s) →
     s' = s ∧
     cropQueue s' = cropQueue s ∧
     uploadedImages s' = uploadedImages s ∧
     inspirationImages s' = inspirationImages s ∧
     pastedImages s' = pastedImages s ∧
     (isPasteModalOpen s = true → isPasteModalOpen s' = true)) ∧
  (length (photoSet type s) < categoryMax type →
     isPasteModalOpen s' = false ∧ pastedImages s' = []).
Proof.
  simpl. unfold handleAddPastedImages, categoryMax, photoSet. split; intros H.
  - assert (step_id : ∀ b : bool, b = true → ∀ t : State, (if b then s else t) = s)
      by (by intros ? ->).
    rewrite step_id; [done|]. apply Z.leb_le. destruct type; lia.
  - destruct (_ <=? _)%Z eqn:E; [|done].
    apply Z.leb_le in E. destruct type; lia.
Qed.

Lemma handleAddPastedImages_full_changes_nothing_witness :
  let s := initial |> setInspirationImages (λ _, replicate 5 "data:v")
                   |> setPastedImages (λ _, ["data:a"; "data:b"])
                   |> setIsPasteModalOpen (λ _, true) in
  categoryMax Inspiration ≤ length (photoSet Inspiration s) ∧
  step (AddPastedImages Inspiration) s = s ∧
  isPasteModalOpen (step (AddPastedImages Inspiration) s) = true ∧
  isPasteModalOpen (step (AddPastedImages Main) s) = false.
Proof.
  intros s.
  destruct (handleAddPastedImages_full_changes_nothing s Inspiration) as [Hfull _].
  destruct (handleAddPastedImages_full_changes_nothing s Main) as [_ Hfree].
  assert (Hmax : categoryMax Inspiration ≤ length (photoSet Inspiration s))
    by (vm_compute; lia).
  assert (Hlt : length (photoSet Main s) < categoryMax Main) by (vm_compute; lia).
  destruct (Hfull Hmax) as (Hsame & _ & _ & _ & _ & Hopen).
  destruct (Hfree Hlt) as [Hclosed _].
  split; [exact Hmax|]. split; [exact Hsame|]. split; [by apply Hopen|exact Hclosed].
Defined.

(** ** Crop confirm and skip *)

(** C8.  With [item] at the head of the crop queue:
    - whatever the crop selection, the image element and the canvas are,
      [handleCropConfirm] leaves the PhotoSet of the other category as it
      was;
    - a confirm that is carried out (image element mounted, a completed
      crop selection, the canvas context obtained) appends the cropped image
      to the PhotoSet of [item]'s category, removes exactly the head from
      the queue and clears [crop] and [completedCrop];
    - [handleCropCancel] adds nothing to either PhotoSet, removes exactly
      the head and clears [crop] and [completedCrop];
    - a confirm that is not carried out (no image element or no completed
      crop selection) returns the state it was given. *)
Theorem crop_confirm_isolated_skip_adds_nothing
    (s : State) (item : QueueItem) (q : list QueueItem) :
  cropQueue s = item :: q →
  (∀ image canvas,
     photoSet (other (type item)) (step (CropConfirm image canvas) s)
     = photoSet (other (type item)) s) ∧
  (∀ c croppedDataUrl,
     completedCrop s = Some c →
     let s' := step (CropConfirm true (Some croppedDataUrl)) s in
     photoSet (type item) s' = photoSet (type item) s ++ [croppedDataUrl] ∧
     cropQueue s' = q ∧ crop s' = None ∧ completedCrop s' = None) ∧
  (let s' := step CropCancel s in
   uploadedImages s' = uploadedImages s ∧
   inspirationImages s' = inspirationImages s ∧
   cropQueue s' = q ∧ crop s' = None ∧ completedCrop s' = None) ∧
  (∀ image canvas,
     image = false ∨ completedCrop s = None →
     step (CropConfirm image canvas) s = s).
Proof.
  intros Hq. repeat split.
  - intros image canvas. simpl. unfold handleCropConfirm. rewrite Hq.
    destruct image, (completedCrop s), canvas; try done.
    simpl. by destruct (type item).
  - simpl. unfold handleCropConfirm. rewrite Hq, H. simpl.
    by destruct (type item).
  - simpl. unfold handleCropConfirm. rewrite Hq, H. simpl.
    destruct (type item); simpl; by rewrite Hq, slice_rest.
  - simpl. unfold handleCropConfirm. rewrite Hq, H. by destruct (type item).
  - simpl. unfold handleCropConfirm. rewrite Hq, H. by destruct (type item).
  - simpl. by rewrite Hq, slice_rest.
  - intros image canvas [-> | Hc]; simpl; unfold handleCropConfirm; [done|].
    rewrite Hc. by destruct image.
Qed.

Lemma crop_confirm_isolated_skip_adds_nothing_witness :
  let head := {| dataUrl := Some "data:one"; type := Main |} in
  let next := {| dataUrl := Some "data:two"; type := Inspiration |} in
  let s := initial |> setInspirationImages (λ _, ["data:v"])
                   |> setCropQueue (λ _, [head; next])
                   |> setCompletedCrop
                        (λ _, Some {| unit := px; x := 0; y := 0;
                                      width := 64; height := 64 |}) in
  let s' := step (CropConfirm true (Some "data:cropped")) s in
  cropQueue s = head :: [next] ∧
  inspirationImages s' = ["data:v"] ∧
  uploadedImages s' = ["data:cropped"] ∧
  cropQueue s' = [next] ∧
  uploadedImages (step CropCancel s) = [] ∧
  cropQueue (step CropCancel s) = [next].
Proof.
  intros head next s s'.
  assert (Hq : cropQueue s = head :: [next]) by reflexivity.
  destruct (crop_confirm_isolated_skip_adds_nothing s head [next] Hq)
    as (Hiso & Hconfirm & Hskip & _).
  destruct (Hconfirm _ "data:cropped" eq_refl) as (Happ & Hrest & _).
  destruct Hskip as (Hup & _ & Hrest' & _).
  split; [exact Hq|]. split; [exact (Hiso true (Some "data:cropped"))|].
  split; [exact Happ|]. split; [exact Hrest|]. split; [exact Hup|exact Hrest'].
Defined.

(** ** Truncation at intake *)

(** C9.  Let the PhotoSet of the target category hold no more than its
    maximum and let [availableSlots] be the maximum minus its size.  Of a
    batch, the first [availableSlots] items are accepted, that is
    [min (length batch) availableSlots] of them.
    - File upload: the handler starts the reads of the accepted files and
      of no others, and changes no state cell; when the reads have ended the
      accepted files, in order and with the target category, are appended to
      the crop queue.
    - Paste-add: the accepted images of the paste buffer, in order and with
      the target category, are appended to the crop queue.
    In both cases the excess leaves no trace: nothing is logged (no alert,
    no console output, no fault), no promise is left behind, and no cell
    other than the queue (and, for a paste, the buffer and the flag of its
    modal) changes. *)
Theorem intake_accepts_available_slots (s : State) (type : ImageType) :
  length (photoSet type s) ≤ categoryMax type →
  let availableSlots := categoryMax type - length (photoSet type s) in
  (∀ batch : list File,
     let accepted := take availableSlots batch in
     let s1 := step (ImageUpload (Some batch) type) s in
     let s2 := step (UploadRead (nextId s)) s1 in
     length accepted = min (length batch) availableSlots ∧
     tasks s1 = <[nextId s := ReadUpload ((λ file, {| dataUrl := file; type := type |})
                                            <$> accepted)]> (tasks s) ∧
     cropQueue s1 = cropQueue s ∧
     intake_frame s s1 ∧
     cropQueue s2 = cropQueue s ++ ((λ file, {| dataUrl := file; type := type |})
                                      <$> accepted) ∧
     intake_frame s s2 ∧
     pastedImages s2 = pastedImages s ∧
     isPasteModalOpen s2 = isPasteModalOpen s ∧
     tasks s2 = delete (nextId s) (tasks s)) ∧
  (let batch := pastedImages s in
   let accepted := take availableSlots batch in
   let s' := step (AddPastedImages type) s in
   length accepted = min (length batch) availableSlots ∧
   cropQueue s' = cropQueue s ++ ((λ dataUrl, {| dataUrl := Some dataUrl; type := type |})
                                    <$> accepted) ∧
   intake_frame s s' ∧
   tasks s' = tasks s).
Proof.
  intros Hle availableSlots.
  assert (Hslots : (Z.of_nat (categoryMax type) - Z.of_nat (length (photoSet type s)))%Z
                   = Z.of_nat availableSlots) by (unfold availableSlots; lia).
  assert (Hmax : match type with
                 | Main => MAX_MAIN_IMAGES
                 | Inspiration => MAX_INSPIRATION_IMAGES
                 end = categoryMax type) by by destruct type.
  assert (Hcur : match type with
                 | Main => length (uploadedImages s)
                 | Inspiration => length (inspirationImages s)
                 end = length (photoSet type s)) by by destruct type.
  split.
  - intros batch accepted s1 s2.
    assert (Hs1 : s1 = spawn (ReadUpload ((λ file, {| dataUrl := file; type := type |})
                                            <$> accepted)) s).
    { unfold s1. simpl. unfold handleImageUpload.
      by rewrite Hmax, Hcur, Hslots, slice_prefix. }
    clearbody s1. subst s1.
    split; [unfold accepted; rewrite length_take; lia|].
    unfold s2. simpl. rewrite lookup_insert_eq. simpl. repeat split.
    by rewrite delete_insert_eq.
  - intros batch accepted s'. split; [unfold accepted; rewrite length_take; lia|].
    unfold s'. simpl. unfold handleAddPastedImages. rewrite Hmax, Hcur, Hslots.
    destruct (Z.of_nat availableSlots <=? 0)%Z eqn:E.
    + apply Z.leb_le in E. assert (availableSlots = 0) as Hz by lia.
      unfold accepted. rewrite Hz. simpl. rewrite app_nil_r. by repeat split.
    + rewrite slice_prefix. by repeat split.
Qed.

Lemma intake_accepts_available_slots_witness :
  let s := initial |> setInspirationImages (λ _, ["data:1"; "data:2"; "data:3"])
                   |> setPastedImages (λ _, ["data:p"; "data:q"; "data:r"]) in
  let batch := [Some "data:a"; Some "data:b"; None; Some "data:d"] in
  length (photoSet Inspiration s) ≤ categoryMax Inspiration ∧
  cropQueue (run [ImageUpload (Some batch) Inspiration; UploadRead 0] s)
  = [{| dataUrl := Some "data:a"; type := Inspiration |};
     {| dataUrl := Some "data:b"; type := Inspiration |}] ∧
  cropQueue (step (AddPastedImages Inspiration) s)
  = [{| dataUrl := Some "data:p"; type := Inspiration |};
     {| dataUrl := Some "data:q"; type := Inspiration |}].
Proof.
  intros s batch.
  assert (Hle : length (photoSet Inspiration s) ≤ categoryMax Inspiration)
    by (vm_compute; lia).
  destruct (intake_accepts_available_slots s Inspiration Hle) as [Hupload Hpaste].
  destruct (Hupload batch) as (_ & _ & _ & _ & Hqueue & _).
  destruct Hpaste as (_ & Hqueue' & _).
  split; [exact Hle|]. split; [exact Hqueue|exact Hqueue'].
Defined.

(** ** Generation of a batch *)

Lemma filter_all {A} (P : A → Prop) `{∀ x, Decision (P x)} (l : list A) :
  Forall P l → filter P l = l.
Proof.
  induction 1 as [|a l Ha _ IH]; [done|].
  by rewrite filter_cons_True, IH.
Qed.

Lemma remaining_after (i : nat) (todo remaining : list nat) :
  i :: todo ≡ₚ remaining → NoDup (i :: todo) →
  filter (λ j, j ≠ i) remaining ≡ₚ todo.
Proof.
  intros Hperm Hnodup. rewrite <- Hperm.
  rewrite filter_cons_False by (intros Hne; by apply Hne).
  apply NoDup_cons in Hnodup as [Hi _].
  rewrite filter_all; [done|].
  apply Forall_forall. intros j Hj ->. done.
Qed.

Section write_slots.
Variable outcome : nat → Settled.

Lemma write_slots_cons (a : list Cell) (i : nat) (order : list nat) :
  write_slots outcome a (i :: order)
  = write_slots outcome (assign (spread a) i (Item (imageOf (outcome i)))) order.
Proof. done. Qed.

Lemma write_slots_lookup (order : list nat) : ∀ a : list Cell,
  Forall (λ c, c ≠ Hole) a →
  Forall (λ i, i < length a) order →
  length (write_slots outcome a order) = length a ∧
  ∀ j, write_slots outcome a order !! j
       = if decide (j ∈ order) then Some (Item (imageOf (outcome j))) else a !! j.
Proof.
  induction order as [|i order IH]; intros a Hdense Hrange.
  - split; [done|]. intros j. case_decide as Hj; [|done]. by apply elem_of_nil in Hj.
  - apply Forall_cons in Hrange as [Hi Hrange].
    rewrite write_slots_cons, spread_dense, assign_insert by done.
    destruct (IH (<[i := Item (imageOf (outcome i))]> a)) as [Hlen Hlook].
    + apply Forall_insert; done.
    + by rewrite length_insert.
    + split; [by rewrite Hlen, length_insert|].
      intros j. rewrite Hlook.
      destruct (decide (j ∈ order)) as [Hin|Hnin].
      * rewrite decide_True; [done|]. by apply elem_of_cons; right.
      * destruct (decide (j = i)) as [->|Hne].
        -- rewrite decide_True by (apply elem_of_cons; by left).
           by rewrite list_lookup_insert_eq.
        -- rewrite decide_False.
           ++ by rewrite list_lookup_insert_ne.
           ++ intros [?|?]%elem_of_cons; done.
Qed.

Lemma write_slots_complete (K : nat) (order : list nat) :
  order ≡ₚ seq 0 K →
  write_slots outcome (replicate K (Item pendingImage)) order
  = (λ i, Item (imageOf (outcome i))) <$> seq 0 K.
Proof.
  intros Hperm.
  destruct (write_slots_lookup order (replicate K (Item pendingImage)))
    as [Hlen Hlook].
  - apply Forall_replicate. done.
  - rewrite Hperm, length_replicate. apply Forall_forall.
    intros i Hi%elem_of_seq. lia.
  - rewrite length_replicate in Hlen.
    apply list_eq. intros j. rewrite Hlook, list_lookup_fmap.
    destruct (decide (j < K)) as [Hj|Hj].
    + rewrite decide_True by (rewrite Hperm; apply elem_of_seq; lia).
      by rewrite lookup_seq_lt.
    + rewrite decide_False by (rewrite Hperm; intros ?%elem_of_seq; lia).
      rewrite lookup_seq_ge by lia. apply lookup_replicate_None. lia.
Qed.
End write_slots.

Lemma run_cons (e : Event) (trace : list Event) (s : State) :
  run (e :: trace) s = run trace (step e s).
Proof. done. Qed.

(** The settlements of every request that is still unsettled, in any order
    and with nothing in between: every one writes its own slot, and the last
    one shows the results. *)
Lemma run_settlements (id : nat) (outcome : nat → Settled) (todo : list nat) :
  ∀ (s : State) (remaining : list nat),
    tasks s !! id = Some (Generation remaining) →
    todo ≡ₚ remaining → NoDup todo → todo ≠ [] →
    let s' := run (settlements id outcome todo) s in
    generatedImages s' = write_slots outcome (generatedImages s) todo ∧
    appState s' = ResultsShown ∧
    tasks s' = delete id (tasks s) ∧
    uploadedImages s' = uploadedImages s ∧
    inspirationImages s' = inspirationImages s.
Proof.
  induction todo as [|i todo IH]; intros s remaining Htask Hperm Hnodup Hne; [done|].
  clear Hne. unfold settlements. rewrite fmap_cons, run_cons.
  fold (settlements id outcome todo).
  pose proof (remaining_after i todo remaining Hperm Hnodup) as Hrest.
  assert (Hin : i ∈ remaining) by (rewrite <- Hperm; apply elem_of_cons; by left).
  cbn [step]. unfold handleGenerateClick_settled.
  rewrite Htask, bool_decide_true by done.
  unfold handleGenerateClick_joined. cbn [tasks setTasks].
  rewrite lookup_insert_eq.
  destruct todo as [|i' todo].
  - apply Permutation_nil_r in Hrest. rewrite Hrest. simpl.
    repeat split. by rewrite delete_insert_eq.
  - destruct (filter (λ j, j ≠ i) remaining) as [|r rest] eqn:Hfilter.
    { symmetry in Hrest. by apply Permutation_nil_r in Hrest. }
    symmetry in Hrest.
    match goal with
    | |- context [run _ ?s1] =>
        destruct (IH s1 (r :: rest)) as (Himages & Hstate & Htasks & Hup & Hinsp);
          [ | exact Hrest | by apply NoDup_cons in Hnodup as [_ ?] | done | ]
    end.
    { cbn [tasks setTasks]. apply lookup_insert_eq. }
    cbv zeta. rewrite Himages, Hstate, Htasks, Hup, Hinsp. simpl.
    repeat split. by rewrite delete_insert_eq.
Qed.

(** What [handleGenerateClick] leaves behind when it goes ahead with a
    count of at least one. *)
Lemma handleGenerateClick_started (s : State) :
  uploadedImages s ≠ [] → inspirationImages s ≠ [] → 1 ≤ generationCount s →
  step GenerateClick s
  = s |> setAppState (λ _, Generating)
      |> setGeneratedImages (λ _, replicate (generationCount s) (Item pendingImage))
      |> emit (replicate (generationCount s)
                 (generateVibeBasedImage (uploadedImages s) (inspirationImages s)
                    (userPrompt s)))
      |> spawn (Generation (seq 0 (generationCount s))).
Proof.
  intros Hup Hinsp HK. cbn [step]. unfold handleGenerateClick.
  destruct (uploadedImages s) as [|u us] eqn:Eu; [done|].
  destruct (inspirationImages s) as [|v vs] eqn:Ev; [done|].
  cbn [length Nat.eqb orb].
  unfold handleGenerateClick_joined. cbn [tasks spawn].
  rewrite lookup_insert_eq.
  destruct (generationCount s) as [|K]; [lia|]. done.
Qed.

Lemma generation_batch (s : State) (outcome : nat → Settled) (order : list nat) :
  uploadedImages s ≠ [] → inspirationImages s ≠ [] → 1 ≤ generationCount s →
  order ≡ₚ seq 0 (generationCount s) →
  let finished := run (settlements (nextId s) outcome order) (step GenerateClick s) in
  generatedImages finished
  = (λ i, Item (imageOf (outcome i))) <$> seq 0 (generationCount s) ∧
  appState finished = ResultsShown.
Proof.
  intros Hup Hinsp HK Hperm.
  rewrite handleGenerateClick_started by done.
  match goal with
  | |- context [run _ ?s1] =>
      destruct (run_settlements (nextId s) outcome order s1
                  (seq 0 (generationCount s))) as (Himages & Hstate & _);
        [ | exact Hperm | | | ]
  end.
  - cbn [tasks spawn]. apply lookup_insert_eq.
  - rewrite Hperm. apply NoDup_seq.
  - intros ->. apply Permutation_nil_l in Hperm.
    destruct (generationCount s); [lia|done].
  - cbv zeta. rewrite Himages, Hstate. split; [|done].
    cbn [generatedImages spawn emit setGeneratedImages].
    by apply write_slots_complete.
Qed.

(** C2.  With both PhotoSets non-empty and a count [K] from 1 to 8,
    [handleGenerateClick] shows the generating view, creates exactly [K]
    slots, every one with the status pending and neither image nor
    message, and issues [K] requests with the photos and the instructions
    of the moment.  When these [K] requests have settled, in any order and
    with any outcomes, nothing else happening in between, the slot array
    has exactly [K] entries, slot [i] is done when request [i] succeeded
    and error when it failed, so that none is pending, and the view shows
    the results. *)
Theorem handleGenerateClick_settles_every_slot
    (s : State) (K : nat) (outcome : nat → Settled) (order : list nat) :
  uploadedImages s ≠ [] → inspirationImages s ≠ [] →
  generationCount s = K → 1 ≤ K ≤ 8 →
  order ≡ₚ seq 0 K →
  let started := step GenerateClick s in
  let finished := run (settlements (nextId s) outcome order) started in
  generatedImages started
  = replicate K (Item {| status := Pending; url := None; error := None |}) ∧
  length (generatedImages started) = K ∧
  (∀ i, i < K → status_at (generatedImages started) i = Some Pending) ∧
  appState started = Generating ∧
  effects started
  = effects s ++ replicate K (generateVibeBasedImage (uploadedImages s)
                                (inspirationImages s) (userPrompt s)) ∧
  tasks started !! nextId s = Some (Generation (seq 0 K)) ∧
  length (generatedImages finished) = K ∧
  (∀ i, i < K →
        status_at (generatedImages finished) i
        = Some match outcome i with Fulfilled _ => Done | Rejected _ => Error end) ∧
  (∀ i, status_at (generatedImages finished) i ≠ Some Pending) ∧
  Forall (λ c, ∃ image, c = Item image ∧ (status image = Done ∨ status image = Error))
    (generatedImages finished) ∧
  appState finished = ResultsShown.
Proof.
  intros Hup Hinsp <- [HK _] Hperm started finished.
  destruct (generation_batch s outcome order Hup Hinsp HK Hperm) as [Himages Hstate].
  fold started in Himages, Hstate. fold finished in Himages, Hstate.
  assert (Hstarted : generatedImages started
                     = replicate (generationCount s)
                         (Item {| status := Pending; url := None; error := None |})).
  { unfold started. by rewrite handleGenerateClick_started. }
  assert (Hslot : ∀ i, i < generationCount s →
            status_at (generatedImages finished) i
            = Some match outcome i with Fulfilled _ => Done | Rejected _ => Error end).
  { intros i Hi. unfold status_at.
    rewrite Himages, list_lookup_fmap, lookup_seq_lt by done. simpl.
    by destruct (outcome i). }
  split; [exact Hstarted|]. split; [by rewrite Hstarted, length_replicate|].
  split.
  { intros i Hi. unfold status_at. rewrite Hstarted.
    by rewrite (lookup_replicate_2 _ _ _ Hi). }
  unfold started at 1 2 3. rewrite handleGenerateClick_started by done.
  cbn [generatedImages appState effects tasks spawn emit setGeneratedImages setAppState].
  rewrite lookup_insert_eq.
  split; [done|]. split; [done|]. split; [done|].
  split; [by rewrite Himages, length_fmap, length_seq|].
  split; [exact Hslot|]. split.
  { intros i. destruct (decide (i < generationCount s)) as [Hi|Hi].
    - rewrite Hslot by done. by destruct (outcome i).
    - unfold status_at. rewrite Himages, list_lookup_fmap.
      rewrite lookup_seq_ge by lia. done. }
  split; [|exact Hstate]. rewrite Himages.
  apply Forall_fmap, Forall_forall. intros i _. simpl.
  eexists. split; [done|]. apply imageOf_settled.
Qed.

Lemma handleGenerateClick_settles_every_slot_witness :
  let s := initial |> setUploadedImages (λ _, ["data:me1"; "data:me2"])
                   |> setInspirationImages (λ _, ["data:vibe"])
                   |> setGenerationCount (λ _, 3) in
  let outcome := λ i, if i =? 1 then Rejected (ErrorObject "quota exceeded")
                      else Fulfilled "data:result" in
  let started := step GenerateClick s in
  let finished := run (settlements 0 outcome [2; 0; 1]) started in
  (uploadedImages s ≠ [] ∧ inspirationImages s ≠ [] ∧ 1 ≤ 3 ≤ 8 ∧ [2; 0; 1] ≡ₚ seq 0 3) ∧
  length (generatedImages started) = 3 ∧
  status_at (generatedImages started) 0 = Some Pending ∧
  status_at (generatedImages started) 1 = Some Pending ∧
  status_at (generatedImages started) 2 = Some Pending ∧
  length (generatedImages finished) = 3 ∧
  status_at (generatedImages finished) 0 = Some Done ∧
  status_at (generatedImages finished) 1 = Some Error ∧
  status_at (generatedImages finished) 2 = Some Done ∧
  appState finished = ResultsShown.
Proof.
  intros s outcome started finished.
  assert (Hup : uploadedImages s ≠ []) by done.
  assert (Hinsp : inspirationImages s ≠ []) by done.
  assert (HK : 1 ≤ 3 ≤ 8) by lia.
  assert (Hperm : [2; 0; 1] ≡ₚ seq 0 3).
  { simpl. etrans; [apply Permutation_swap|]. apply Permutation_skip, Permutation_swap. }
  destruct (handleGenerateClick_settles_every_slot s 3 outcome [2; 0; 1]
              Hup Hinsp eq_refl HK Hperm)
    as (_ & Hfresh & Hpending & _ & _ & _ & Hlen & Hslot & _ & _ & Hstate).
  split; [done|]. split; [exact Hfresh|].
  split; [apply Hpending; lia|]. split; [apply Hpending; lia|].
  split; [apply Hpending; lia|]. split; [exact Hlen|].
  split; [apply (Hslot 0); lia|]. split; [apply (Hslot 1); lia|].
  split; [apply (Hslot 2); lia|exact Hstate].
Defined.

(** C3.  The slot array that a batch ends with is decided by the outcome of
    each request alone: whatever the order in which the requests settle,
    slot [i] holds the outcome of request [i], so any two orders end with
    the same array. *)
Theorem generation_result_independent_of_order
    (s : State) (outcome : nat → Settled) (order1 order2 : list nat) :
  uploadedImages s ≠ [] → inspirationImages s ≠ [] → 1 ≤ generationCount s →
  order1 ≡ₚ seq 0 (generationCount s) →
  order2 ≡ₚ seq 0 (generationCount s) →
  let final1 := run (settlements (nextId s) outcome order1) (step GenerateClick s) in
  let final2 := run (settlements (nextId s) outcome order2) (step GenerateClick s) in
  generatedImages final1 = generatedImages final2 ∧
  (∀ i, i < generationCount s →
        generatedImages final1 !! i = Some (Item (imageOf (outcome i)))) ∧
  length (generatedImages final1) = generationCount s.
Proof.
  intros Hup Hinsp HK Hperm1 Hperm2 final1 final2.
  destruct (generation_batch s outcome order1 Hup Hinsp HK Hperm1) as [Himages1 _].
  destruct (generation_batch s outcome order2 Hup Hinsp HK Hperm2) as [Himages2 _].
  fold final1 in Himages1. fold final2 in Himages2.
  rewrite Himages1, Himages2. split; [done|]. split.
  - intros i Hi. by rewrite list_lookup_fmap, lookup_seq_lt.
  - by rewrite length_fmap, length_seq.
Qed.

Lemma generation_result_independent_of_order_witness :
  let s := initial |> setUploadedImages (λ _, ["data:me1"; "data:me2"])
                   |> setInspirationImages (λ _, ["data:vibe"])
                   |> setGenerationCount (λ _, 3) in
  let outcome := λ i, if i =? 1 then Rejected (ErrorObject "quota exceeded")
                      else Fulfilled "data:result" in
  let final1 := run (settlements 0 outcome [0; 1; 2]) (step GenerateClick s) in
  let final2 := run (settlements 0 outcome [2; 0; 1]) (step GenerateClick s) in
  (uploadedImages s ≠ [] ∧ inspirationImages s ≠ [] ∧ 1 ≤ generationCount s ∧
   [0; 1; 2] ≡ₚ seq 0 3 ∧ [2; 0; 1] ≡ₚ seq 0 3) ∧
  generatedImages final1 = generatedImages final2 ∧
  status_at (generatedImages final2) 0 = Some Done ∧
  status_at (generatedImages final2) 1 = Some Error ∧
  status_at (generatedImages final2) 2 = Some Done.
Proof.
  intros s outcome final1 final2.
  assert (Hup : uploadedImages s ≠ []) by done.
  assert (Hinsp : inspirationImages s ≠ []) by done.
  assert (HK : 1 ≤ generationCount s) by (simpl; lia).
  assert (Hperm1 : [0; 1; 2] ≡ₚ seq 0 3) by done.
  assert (Hperm2 : [2; 0; 1] ≡ₚ seq 0 3).
  { simpl. etrans; [apply Permutation_swap|]. apply Permutation_skip, Permutation_swap. }
  destruct (generation_result_independent_of_order s outcome [0; 1; 2] [2; 0; 1]
              Hup Hinsp HK Hperm1 Hperm2) as (Hsame & Hslot & _).
  change (generatedImages final1 = generatedImages final2) in Hsame.
  change (∀ i, i < 3 → generatedImages final1 !! i = Some (Item (imageOf (outcome i))))
    in Hslot.
  split; [done|]. split; [exact Hsame|].
  rewrite <- Hsame. unfold status_at.
  rewrite (Hslot 0), (Hslot 1), (Hslot 2) by lia. done.
Defined.

(** ** Regeneration of one slot *)

Lemma requests_emit (new : list Effect) (s : State) :
  requests (emit new s)
  = requests s ++ omap (λ e, match e with
                             | generateVibeBasedImage uploaded inspiration prompt =>
                                 Some (uploaded, inspiration, prompt)
                             | _ => None
                             end) new.
Proof. unfold requests. simpl. apply omap_app. Qed.

Lemma uncaught_emit (new : list Effect) (s : State) :
  uncaught (emit new s)
  = uncaught s ++ omap (λ e, match e with unhandled err => Some err | _ => None end) new.
Proof. unfold uncaught. simpl. apply omap_app. Qed.

(** What the continuation of [handleRegenerateSlot] does to a slot that
    exists, in whatever state the request settles. *)
Lemma handleRegenerateSlot_settled_slot (index : nat) (outcome : Settled) (s : State) :
  index < length (generatedImages s) →
  Forall (λ c, c ≠ Hole) (generatedImages s) →
  let s' := handleRegenerateSlot_settled index outcome s in
  generatedImages s' = <[index := Item (imageOf outcome)]> (generatedImages s) ∧
  appState s' = appState s ∧
  requests s' = requests s ∧
  uncaught s' = uncaught s.
Proof.
  intros Hi Hdense.
  destruct outcome as [resultUrl|err]; simpl;
    rewrite spread_dense, assign_insert by done; repeat split.
  - by rewrite requests_emit, app_nil_r.
  - by rewrite uncaught_emit, app_nil_r.
Qed.

(** C4.  [handleRegenerateSlot] on slot [i]:
    - returns the state it was given when a PhotoSet is empty or slot [i]
      is pending;
    - otherwise, [i] being a slot of the array, it sets slot [i] to pending
      and no other, issues exactly one request, and leaves the view state
      alone; when that request settles, its outcome is written to slot [i],
      which is then done or error, the array has the length it had, every
      other slot is what it was, no further request has been made and the
      view state is still what it was;
    - the last point holds in whatever state a regeneration of an existing
      slot settles. *)
Theorem handleRegenerateSlot_touches_one_slot (s : State) (i : nat) :
  (uploadedImages s = [] ∨ inspirationImages s = []
   ∨ status_at (generatedImages s) i = Some Pending →
   step (RegenerateSlot i) s = s) ∧
  (uploadedImages s ≠ [] → inspirationImages s ≠ [] →
   status_at (generatedImages s) i ≠ Some Pending →
   i < length (generatedImages s) →
   Forall (λ c, c ≠ Hole) (generatedImages s) →
   let s1 := step (RegenerateSlot i) s in
   generatedImages s1 = <[i := Item pendingImage]> (generatedImages s) ∧
   effects s1 = effects s ++ [generateVibeBasedImage (uploadedImages s)
                                (inspirationImages s) (userPrompt s)] ∧
   tasks s1 = <[nextId s := Regeneration i]> (tasks s) ∧
   appState s1 = appState s ∧
   ∀ outcome,
     let s2 := step (RegenerationSettled (nextId s) outcome) s1 in
     generatedImages s2 = <[i := Item (imageOf outcome)]> (generatedImages s) ∧
     (status_at (generatedImages s2) i = Some Done
      ∨ status_at (generatedImages s2) i = Some Error) ∧
     length (generatedImages s2) = length (generatedImages s) ∧
     (∀ j, j ≠ i → generatedImages s2 !! j = generatedImages s !! j) ∧
     requests s2 = requests s1 ∧
     appState s2 = appState s) ∧
  (∀ id outcome,
     tasks s !! id = Some (Regeneration i) →
     i < length (generatedImages s) →
     Forall (λ c, c ≠ Hole) (generatedImages s) →
     let s' := step (RegenerationSettled id outcome) s in
     generatedImages s' = <[i := Item (imageOf outcome)]> (generatedImages s) ∧
     appState s' = appState s ∧
     tasks s' = delete id (tasks s)).
Proof.
  split; [|split].
  - intros Hrefused. cbn [step]. unfold handleRegenerateSlot.
    destruct Hrefused as [-> | [-> | Hpending]]; [done|by rewrite orb_true_r|].
    rewrite (bool_decide_true _ Hpending). by destruct (_ || _).
  - intros Hup Hinsp Hpending Hi Hdense s1.
    assert (Hs1 : s1 = s |> setGeneratedImages
                              (λ _, <[i := Item pendingImage]> (generatedImages s))
                         |> emit [generateVibeBasedImage (uploadedImages s)
                                    (inspirationImages s) (userPrompt s)]
                         |> spawn (Regeneration i)).
    { unfold s1. cbn [step]. unfold handleRegenerateSlot.
      destruct (uploadedImages s) as [|u us] eqn:Eu; [done|].
      destruct (inspirationImages s) as [|v vs] eqn:Ev; [done|].
      cbn [length Nat.eqb orb]. rewrite (bool_decide_false _ Hpending).
      unfold setGeneratedImages at 1. by rewrite spread_dense, assign_insert. }
    clearbody s1. subst s1. do 4 (split; [done|]).
    intros outcome s2.
    assert (Hs2 : s2 = s |> setGeneratedImages
                              (λ _, <[i := Item pendingImage]> (generatedImages s))
                         |> emit [generateVibeBasedImage (uploadedImages s)
                                    (inspirationImages s) (userPrompt s)]
                         |> spawn (Regeneration i)
                         |> finish (nextId s)
                         |> handleRegenerateSlot_settled i outcome).
    { unfold s2. cbn [step tasks spawn]. by rewrite lookup_insert_eq. }
    clearbody s2. subst s2.
    match goal with
    | |- context [handleRegenerateSlot_settled i outcome ?s1] =>
        destruct (handleRegenerateSlot_settled_slot i outcome s1)
          as (Himages & Hstate & Hrequests & _)
    end.
    { simpl. by rewrite length_insert. }
    { simpl. by apply Forall_insert. }
    cbv zeta in Himages, Hstate, Hrequests.
    rewrite Himages, Hstate, Hrequests.
    cbn [generatedImages appState finish setTasks spawn emit setGeneratedImages].
    rewrite list_insert_insert_eq. unfold status_at.
    rewrite list_lookup_insert_eq by done. rewrite length_insert.
    repeat split.
    + destruct outcome; simpl; auto.
    + intros j Hj. by rewrite list_lookup_insert_ne.
  - intros id outcome Htask Hi Hdense s'. unfold s'. cbn [step]. rewrite Htask.
    match goal with
    | |- context [handleRegenerateSlot_settled i outcome ?s1] =>
        destruct (handleRegenerateSlot_settled_slot i outcome s1)
          as (Himages & Hstate & _); [done..|]
    end.
    cbv zeta in Himages, Hstate. rewrite Himages, Hstate. repeat split.
    by destruct outcome.
Qed.

Lemma handleRegenerateSlot_touches_one_slot_witness :
  let slot := λ u, Item {| status := Done; url := Some u; error := None |} in
  let failed := Item {| status := Error; url := None; error := Some "quota exceeded" |} in
  let s := initial |> setUploadedImages (λ _, ["data:me"])
                   |> setInspirationImages (λ _, ["data:vibe"])
                   |> setGeneratedImages (λ _, [slot "data:r1"; failed; slot "data:r3"])
                   |> setAppState (λ _, ResultsShown) in
  let s2 := run [RegenerateSlot 1; RegenerationSettled 0 (Fulfilled "data:r2")] s in
  (uploadedImages s ≠ [] ∧ inspirationImages s ≠ [] ∧
   status_at (generatedImages s) 1 ≠ Some Pending ∧
   1 < length (generatedImages s) ∧ Forall (λ c, c ≠ Hole) (generatedImages s)) ∧
  generatedImages (step (RegenerateSlot 1) s)
  = [slot "data:r1"; Item pendingImage; slot "data:r3"] ∧
  generatedImages s2 = [slot "data:r1"; slot "data:r2"; slot "data:r3"] ∧
  appState s2 = ResultsShown ∧
  step (RegenerateSlot 1) (step (RegenerateSlot 1) s) = step (RegenerateSlot 1) s.
Proof.
  intros slot failed s s2.
  assert (Hup : uploadedImages s ≠ []) by done.
  assert (Hinsp : inspirationImages s ≠ []) by done.
  assert (Hpending : status_at (generatedImages s) 1 ≠ Some Pending) by done.
  assert (Hi : 1 < length (generatedImages s)) by (simpl; lia).
  assert (Hdense : Forall (λ c, c ≠ Hole) (generatedImages s))
    by (repeat constructor; done).
  destruct (handleRegenerateSlot_touches_one_slot s 1) as (_ & Hallowed & _).
  destruct (Hallowed Hup Hinsp Hpending Hi Hdense) as (Hset & _ & _ & _ & Hsettled).
  destruct (Hsettled (Fulfilled "data:r2")) as (Hwritten & _ & _ & _ & _ & Hstate).
  destruct (handleRegenerateSlot_touches_one_slot (step (RegenerateSlot 1) s) 1)
    as (Hrefused & _).
  split; [done|]. split; [exact Hset|]. split; [exact Hwritten|].
  split; [exact Hstate|]. apply Hrefused. right. right. reflexivity.
Defined.

(** ** Failures of the image service *)

Lemma handleGenerateClick_joined_frame (id : nat) (s : State) :
  generatedImages (handleGenerateClick_joined id s) = generatedImages s ∧
  effects (handleGenerateClick_joined id s) = effects s.
Proof.
  unfold handleGenerateClick_joined.
  destruct (tasks s !! id) as [[| |[|]| |]|]; done.
Qed.

(** C5.  A rejection of the image service, with any value [err], for a
    request that is in flight:
    - for request [i] of a batch started by [handleGenerateClick], and
    - for the request of a [handleRegenerateSlot] on slot [i],
    slot [i] becomes an error slot that carries the message taken from
    [err], the console gets one line, and no fault is left uncaught.  The
    message is the error's own message, or "An unknown error occurred." for
    a value that is not an [Error]. *)
Theorem generation_failure_is_recorded_in_slot
    (s : State) (id i : nat) (err : Thrown) :
  let failed := Item {| status := Error; url := None; error := Some (errorMessage err) |} in
  (∀ remaining,
     tasks s !! id = Some (Generation remaining) → i ∈ remaining →
     let s' := step (GenerationSettled id i (Rejected err)) s in
     generatedImages s' !! i = Some failed ∧
     effects s' = effects s ++ [console_error ("Failed to generate image slot "
                                               +:+ pretty (i + 1) +:+ ":")] ∧
     uncaught s' = uncaught s) ∧
  (tasks s !! id = Some (Regeneration i) →
   let s' := step (RegenerationSettled id (Rejected err)) s in
   generatedImages s' !! i = Some failed ∧
   effects s' = effects s ++ [console_error ("Failed to regenerate image for slot "
                                             +:+ pretty i +:+ ":")] ∧
   uncaught s' = uncaught s) ∧
  (∀ message, err = ErrorObject message → errorMessage err = message) ∧
  (err = OtherValue → errorMessage err = "An unknown error occurred.").
Proof.
  intros failed. split; [|split; [|split]].
  - intros remaining Htask Hin s'. unfold s'. cbn [step].
    unfold handleGenerateClick_settled. rewrite Htask, bool_decide_true by done.
    unfold uncaught.
    match goal with
    | |- context [handleGenerateClick_joined id ?s1] =>
        destruct (handleGenerateClick_joined_frame id s1) as [-> ->]
    end.
    cbn [generatedImages effects setTasks setGeneratedImages emit].
    rewrite assign_lookup, omap_app. simpl. by rewrite app_nil_r.
  - intros Htask s'. unfold s'. cbn [step]. rewrite Htask. unfold uncaught. simpl.
    rewrite assign_lookup, omap_app. simpl. by rewrite app_nil_r.
  - by intros message ->.
  - by intros ->.
Qed.

Lemma generation_failure_is_recorded_in_slot_witness :
  let s := initial |> setUploadedImages (λ _, ["data:me"])
                   |> setInspirationImages (λ _, ["data:vibe"])
                   |> setGenerationCount (λ _, 2) in
  let s1 := step GenerateClick s in
  let s2 := step (GenerationSettled 0 1 (Rejected OtherValue)) s1 in
  let s3 := step (RegenerateSlot 1) s2 in
  let s4 := step (RegenerationSettled 1 (Rejected (ErrorObject "quota exceeded"))) s3 in
  (tasks s1 !! 0 = Some (Generation [0; 1]) ∧ 1 ∈ [0; 1] ∧
   tasks s3 !! 1 = Some (Regeneration 1)) ∧
  generatedImages s2 !! 1
  = Some (Item {| status := Error; url := None;
                  error := Some "An unknown error occurred." |}) ∧
  generatedImages s4 !! 1
  = Some (Item {| status := Error; url := None; error := Some "quota exceeded" |}) ∧
  uncaught s4 = [].
Proof.
  intros s s1 s2 s3 s4.
  assert (Hbatch : tasks s1 !! 0 = Some (Generation [0; 1])) by reflexivity.
  assert (Hin : 1 ∈ [0; 1]) by (apply elem_of_cons; right; apply elem_of_cons; by left).
  assert (Hregen : tasks s3 !! 1 = Some (Regeneration 1)) by reflexivity.
  destruct (generation_failure_is_recorded_in_slot s1 0 1 OtherValue)
    as (Hgenerate & _).
  destruct (Hgenerate [0; 1] Hbatch Hin) as (Hslot & _).
  destruct (generation_failure_is_recorded_in_slot s3 1 1 (ErrorObject "quota exceeded"))
    as (_ & Hregenerate & _).
  destruct (Hregenerate Hregen) as (Hslot' & _ & Huncaught).
  split; [done|]. split; [exact Hslot|]. split; [exact Hslot'|].
  change (uncaught s4 = uncaught s3) in Huncaught. rewrite Huncaught. reflexivity.
Defined.

(** ** The album *)

Lemma label_inj (i j : nat) : label i = label j → i = j.
Proof. unfold label. intros H. simplify_eq. lia. Qed.

Lemma collect_cons (index : nat) (c : Cell) (rest : list Cell)
    (imageData : gmap string string) :
  c ≠ Undefined →
  collect index (c :: rest) imageData
  = collect (S index) rest
      match doneImage c with
      | Some u => <[label index := u]> imageData
      | None => imageData
      end.
Proof.
  intros Hc. destruct c as [| |[[] [u|] e]]; simpl; try done. by destruct (truthy u).
Qed.

Lemma done_count_cons (c : Cell) (rest : list Cell) :
  done_count (c :: rest)
  = match doneImage c with Some _ => S (done_count rest) | None => done_count rest end.
Proof. unfold done_count. cbn [omap list_omap]. by destruct (doneImage c). Qed.

(** The [forEach] over an array without [undefined] entries ends, and the
    object it has filled holds, under the label of each position, the image
    that position offers, and nothing else that was not there before. *)
Lemma collect_lookup (images : list Cell) : ∀ (index : nat) (imageData : gmap string string),
  Forall (λ c, c ≠ Undefined) images →
  ∃ filled,
    collect index images imageData = Some filled ∧
    (∀ j c u, images !! j = Some c → doneImage c = Some u →
              filled !! label (index + j) = Some u) ∧
    (∀ k, (∀ j c, images !! j = Some c → is_Some (doneImage c) → k ≠ label (index + j)) →
          filled !! k = imageData !! k) ∧
    ((∀ j, imageData !! label (index + j) = None) →
     size filled = size imageData + done_count images) ∧
    (∀ k, is_Some (filled !! k) →
          is_Some (imageData !! k)
          ∨ ∃ j, j < length images ∧ k = label (index + j)).
Proof.
  induction images as [|c rest IH]; intros index imageData Hdefined.
  - exists imageData. unfold done_count. simpl. repeat split; first [done|lia|auto].
  - apply Forall_cons in Hdefined as [Hc Hdefined].
    rewrite collect_cons by done.
    destruct (IH (S index) (match doneImage c with
                            | Some u => <[label index := u]> imageData
                            | None => imageData
                            end) Hdefined) as (filled & -> & Hin & Hout & Hsize & Hdom).
    exists filled. split; [done|]. split; [|split; [|split]].
    + intros [|j] c' u Hj Hu; simpl in Hj.
      * simplify_eq. rewrite Hout.
        -- rewrite Hu, Nat.add_0_r. apply lookup_insert_eq.
        -- intros j c'' _ _ Heq%label_inj. lia.
      * replace (index + S j) with (S index + j) by lia. by eapply Hin.
    + intros k Hk. rewrite Hout.
      * destruct (doneImage c) as [u|] eqn:Hu; [|done].
        rewrite lookup_insert_ne; [done|].
        intros <-. apply (Hk 0 c); [done|by rewrite Hu|by rewrite Nat.add_0_r].
      * intros j c' Hj Hc'. replace (S index + j) with (index + S j) by lia.
        by apply (Hk (S j) c').
    + intros Hfresh. rewrite Hsize.
      * rewrite done_count_cons. destruct (doneImage c) as [u|] eqn:Hu; [|done].
        rewrite map_size_insert_None; [lia|].
        specialize (Hfresh 0). by rewrite Nat.add_0_r in Hfresh.
      * intros j. destruct (doneImage c) as [u|]; [rewrite lookup_insert_ne|].
        -- replace (S index + j) with (index + S j) by lia. apply Hfresh.
        -- intros Heq%label_inj. lia.
        -- replace (S index + j) with (index + S j) by lia. apply Hfresh.
    + intros k Hk. destruct (Hdom k Hk) as [Hold | (j & Hj & ->)].
      * destruct (doneImage c) as [u|]; [|by left].
        apply lookup_insert_is_Some in Hold as [<- | [_ Hold]]; [|by left].
        right. exists 0. split; [simpl; lia|by rewrite Nat.add_0_r].
      * right. exists (S j). split; [simpl; lia|]. f_equal. lia.
Qed.

Lemma doneImage_Some (c : Cell) (u : string) :
  doneImage c = Some u
  ↔ ∃ image, c = Item image ∧ status image = Done ∧ url image = Some u ∧ u ≠ "".
Proof.
  split.
  - destruct c as [| |[[] [w|] e]]; simpl; try done.
    destruct w; simpl; [done|]. intros [= <-]. eexists. by repeat split.
  - intros (image & -> & Hstatus & Hurl & Hu). simpl. rewrite Hstatus, Hurl.
    by destruct u.
Qed.

Lemma done_with_doneImage (images : list Cell) (i : nat) (u : string) :
  done_with images i u ↔ images !! i ≫= doneImage = Some u.
Proof.
  unfold done_with. split.
  - intros (image & -> & Hrest). change (doneImage (Item image) = Some u).
    apply doneImage_Some. eauto.
  - destruct (images !! i) as [c|]; [|done].
    change (doneImage c = Some u → ∃ image, Some c = Some (Item image)
              ∧ status image = Done ∧ url image = Some u ∧ u ≠ "").
    intros (image & -> & Hrest)%doneImage_Some. eauto.
Qed.

Lemma done_count_zero (images : list Cell) :
  done_count images = 0 ↔ ∀ i u, ¬ done_with images i u.
Proof.
  unfold done_count. rewrite length_zero_iff_nil. split.
  - intros Hnil i u Hdone%done_with_doneImage.
    destruct (images !! i) as [c|] eqn:Hi; simpl in Hdone; [|done].
    assert (Hin : u ∈ omap doneImage images)
      by (apply list_elem_of_omap; exists c; split; [by eapply list_elem_of_lookup_2|done]).
    rewrite Hnil in Hin. by apply elem_of_nil in Hin.
  - intros Hnone. destruct (omap doneImage images) as [|u rest] eqn:Homap; [done|].
    assert (Hin : u ∈ omap doneImage images) by (rewrite Homap; apply elem_of_cons; by left).
    apply list_elem_of_omap in Hin as (c & [i Hi]%list_elem_of_lookup_1 & Hc).
    destruct (Hnone i u). apply done_with_doneImage. by rewrite Hi.
Qed.

(** The object that the [forEach] fills on an array without [undefined]
    entries: under the label of a position the image that the position
    offers, and nothing under any other key. *)
Lemma collect_labels (images : list Cell) :
  Forall (λ c, c ≠ Undefined) images →
  ∃ imageData,
    collect 0 images ∅ = Some imageData ∧
    (∀ i, imageData !! label i = images !! i ≫= doneImage) ∧
    (∀ k, is_Some (imageData !! k) → ∃ i, k = label i) ∧
    size imageData = done_count images.
Proof.
  intros Hdefined.
  destruct (collect_lookup images 0 ∅ Hdefined)
    as (imageData & Hcollect & Hin & Hout & Hsize & Hdom).
  exists imageData. split; [done|]. split; [|split].
  - intros i. destruct (images !! i) as [c|] eqn:Hi; simpl.
    + destruct (doneImage c) as [u|] eqn:Hu; [by apply (Hin i c u)|].
      rewrite Hout; [apply lookup_empty|].
      intros j c' Hj [u Hu'] Heq%label_inj. simpl in Heq. by simplify_eq.
    + rewrite Hout; [apply lookup_empty|].
      intros j c' Hj _ Heq%label_inj. simpl in Heq. by simplify_eq.
  - intros k Hk. destruct (Hdom k Hk) as [Hold|(i & _ & ->)]; [|by exists i].
    rewrite lookup_empty in Hold. by destruct Hold.
  - rewrite Hsize by (intros; apply lookup_empty). by rewrite map_size_empty.
Qed.

(** C6.  A slot offers an image to the album when it is done and its [url]
    is a non-empty string (the image that the service answered with); a
    pending slot, a failed slot and a done slot whose [url] is missing or
    empty offer none.  [handleDownloadAlbum], on a slot array without
    [undefined] entries:
    - when no slot offers an image, and so when no slot is done, it raises
      the notice for the empty album, calls neither the composer nor a
      download, and ends with [isDownloading] false;
    - when at least one slot offers an image it calls the composer once,
      with an object that holds under the key ["Result " + (i + 1)] the
      image of slot [i] for every slot [i] that offers one, and nothing
      else (every entry is the image of such a slot under that key, there
      are as many entries as such slots, and the keys of different slots
      are different), and keeps [isDownloading] true until the composer
      settles; on success the album is downloaded, on failure a notice is
      raised and nothing is downloaded, and in both cases [isDownloading]
      is false afterwards.
    Every array is in one of the two cases.  On any array, the handler
    ends either with [isDownloading] false or with [isDownloading] true and
    the composer in flight, and the settling of the composer always sets it
    to false.  While [isDownloading] is true the button is disabled, so
    that a second trigger changes nothing, whatever else is mounted. *)
Theorem handleDownloadAlbum_composes_done_slots (s : State) :
  let images := generatedImages s in
  let s1 := step DownloadAlbum s in
  (Forall (λ c, c ≠ Undefined) images →
   (∀ i u, ¬ done_with images i u) →
   effects s1
   = effects s ++ [alert "No images have been successfully generated to create an album."] ∧
   isDownloading s1 = false ∧
   tasks s1 = tasks s) ∧
  (Forall (λ c, c ≠ Undefined) images →
   (∃ i u, done_with images i u) →
   ∃ imageData : gmap string string,
     effects s1 = effects s ++ [createAlbumPage imageData] ∧
     (∀ i u, done_with images i u →
             imageData !! ("Result " +:+ pretty (i + 1)) = Some u) ∧
     (∀ k u, imageData !! k = Some u →
             ∃ i, k = "Result " +:+ pretty (i + 1) ∧ done_with images i u) ∧
     size imageData = done_count images ∧
     isDownloading s1 = true ∧
     tasks s1 = <[nextId s := AlbumPage]> (tasks s) ∧
     ∀ outcome,
       let s2 := step (AlbumPageSettled (nextId s) outcome) s1 in
       isDownloading s2 = false ∧
       effects s2
       = effects s1 ++
         match outcome with
         | Fulfilled albumDataUrl => [download albumDataUrl "perfect-shot-album.jpg"]
         | Rejected _ =>
             [console_error "Failed to create or download album:";
              alert "Sorry, there was an error creating your album. Please try again."]
         end) ∧
  ((∀ i u, ¬ done_with images i u) ∨ (∃ i u, done_with images i u)) ∧
  ((∀ i, status_at images i ≠ Some Done) → ∀ i u, ¬ done_with images i u) ∧
  (isDownloading s1 = false ∧ tasks s1 = tasks s
   ∨ isDownloading s1 = true ∧ tasks s1 = <[nextId s := AlbumPage]> (tasks s)) ∧
  (∀ id outcome,
     tasks s !! id = Some AlbumPage →
     isDownloading (step (AlbumPageSettled id outcome) s) = false) ∧
  (∀ v, cells v = s → isDownloading s = true → dispatch DownloadAlbum v = v) ∧
  (∀ i j, "Result " +:+ pretty (i + 1) = "Result " +:+ pretty (j + 1) → i = j).
Proof.
  intros images s1. unfold s1. cbn [step]. unfold handleDownloadAlbum.
  cbn [generatedImages setIsDownloading]. fold images.
  split; [|split; [|split; [|split; [|split; [|split; [|split]]]]]].
  - intros Hdefined Hnone%done_count_zero.
    destruct (collect_labels images Hdefined) as (imageData & -> & _ & _ & Hsize).
    by rewrite Hsize, Hnone.
  - intros Hdefined Hsome.
    destruct (collect_labels images Hdefined) as (imageData & -> & Hlabels & Hkeys & Hsize).
    rewrite Hsize.
    destruct (done_count images) as [|n] eqn:Hcount.
    { destruct Hsome as (i & u & Hdone). by eapply done_count_zero in Hcount. }
    cbn [Nat.eqb]. exists imageData.
    split; [done|]. split; [|split; [|split; [done|split; [done|split; [done|]]]]].
    + intros i u Hdone%done_with_doneImage.
      change ("Result " +:+ pretty (i + 1)) with (label i). by rewrite Hlabels.
    + intros k u Hk. destruct (Hkeys k) as [i ->]; [by rewrite Hk|].
      exists i. split; [done|]. apply done_with_doneImage. by rewrite <- Hlabels.
    + intros outcome. cbn [step tasks spawn]. rewrite lookup_insert_eq.
      by destruct outcome.
  - destruct (done_count images) as [|n] eqn:Hcount.
    + left. by apply done_count_zero.
    + right. destruct (omap doneImage images) as [|u rest] eqn:Homap;
        [unfold done_count in Hcount; by rewrite Homap in Hcount|].
      assert (Hin : u ∈ omap doneImage images)
        by (rewrite Homap; apply elem_of_cons; by left).
      apply list_elem_of_omap in Hin as (c & [i Hi]%list_elem_of_lookup_1 & Hc).
      exists i, u. apply done_with_doneImage. by rewrite Hi.
  - intros Hnone i u (image & Hi & Hstatus & _). apply (Hnone i).
    unfold status_at. by rewrite Hi, Hstatus.
  - destruct (collect 0 images ∅) as [imageData|]; [|by left].
    destruct (size imageData =? 0); [by left|by right].
  - intros id outcome ->. by destruct outcome.
  - intros v <- Hbusy. unfold dispatch. cbn [enabled]. rewrite Hbusy.
    by rewrite andb_false_r.
  - apply label_inj.
Qed.

Lemma handleDownloadAlbum_composes_done_slots_witness :
  let slot := λ u, Item {| status := Done; url := Some u; error := None |} in
  let failed := Item {| status := Error; url := None; error := Some "quota exceeded" |} in
  let pending := Item {| status := Pending; url := None; error := None |} in
  let s := initial |> setGeneratedImages (λ _, [slot "data:r1"; failed; slot "data:r3"])
                   |> setAppState (λ _, ResultsShown) in
  let none := initial |> setGeneratedImages (λ _, [failed; pending; slot ""])
                      |> setAppState (λ _, ResultsShown) in
  let s1 := step DownloadAlbum s in
  (Forall (λ c, c ≠ Undefined) (generatedImages s) ∧
   (∃ i u, done_with (generatedImages s) i u) ∧
   Forall (λ c, c ≠ Undefined) (generatedImages none) ∧
   (∀ i u, ¬ done_with (generatedImages none) i u) ∧
   tasks s1 !! 0 = Some AlbumPage ∧
   cells (mount s1) = s1 ∧
   isDownloading s1 = true) ∧
  (∃ imageData : gmap string string,
     effects s1 = [createAlbumPage imageData] ∧
     imageData !! "Result 1" = Some "data:r1" ∧
     imageData !! "Result 2" = None ∧
     imageData !! "Result 3" = Some "data:r3" ∧
     size imageData = 2) ∧
  dispatch DownloadAlbum (mount s1) = mount s1 ∧
  isDownloading (step (AlbumPageSettled 0 (Rejected OtherValue)) s1) = false ∧
  effects (step DownloadAlbum none)
  = [alert "No images have been successfully generated to create an album."] ∧
  isDownloading (step DownloadAlbum none) = false.
Proof.
  intros slot failed pending s none s1.
  assert (Hdefined : Forall (λ c, c ≠ Undefined) (generatedImages s))
    by (repeat constructor; done).
  assert (Hfirst : done_with (generatedImages s) 0 "data:r1")
    by (eexists; by repeat split).
  assert (Hthird : done_with (generatedImages s) 2 "data:r3")
    by (eexists; by repeat split).
  assert (Hsome : ∃ i u, done_with (generatedImages s) i u) by eauto.
  assert (Hdefined' : Forall (λ c, c ≠ Undefined) (generatedImages none))
    by (repeat constructor; done).
  assert (Hnone : ∀ i u, ¬ done_with (generatedImages none) i u).
  { intros [|[|[|i]]] u (image & Hi & Hstatus & Hurl & Hu); simpl in Hi.
    all: try (injection Hi as <-; simpl in *; congruence).
    by rewrite lookup_nil in Hi. }
  assert (Htask : tasks s1 !! 0 = Some AlbumPage) by (vm_compute; reflexivity).
  assert (Hcells : cells (mount s1) = s1) by apply cells_mount.
  assert (Hbusy : isDownloading s1 = true) by (vm_compute; reflexivity).
  destruct (handleDownloadAlbum_composes_done_slots s) as (_ & Hcompose & _).
  destruct (Hcompose Hdefined Hsome)
    as (imageData & Heffects & Hlookup & Hkeys & Hsize & _).
  destruct (handleDownloadAlbum_composes_done_slots s1)
    as (_ & _ & _ & _ & _ & Hcleared & Hguard & _).
  destruct (handleDownloadAlbum_composes_done_slots none) as (Hempty & _).
  destruct (Hempty Hdefined' Hnone) as (Halert & Hfalse & _).
  split; [exact (conj Hdefined (conj Hsome (conj Hdefined' (conj Hnone
            (conj Htask (conj Hcells Hbusy))))))|].
  split.
  { exists imageData. split; [exact Heffects|].
    split; [exact (Hlookup 0 _ Hfirst)|]. split.
    { destruct (imageData !! "Result 2") as [u|] eqn:Hsecond; [|done].
      destruct (Hkeys _ _ Hsecond) as (i & Hkey & image & Hi & Hstatus & _).
      change (label 1 = label i) in Hkey. apply label_inj in Hkey as <-.
      simpl in Hi. injection Hi as <-. discriminate Hstatus. }
    split; [exact (Hlookup 2 _ Hthird)|exact Hsize]. }
  split; [exact (Hguard (mount s1) Hcells Hbusy)|].
  split; [exact (Hcleared 0 (Rejected OtherValue) Htask)|].
  split; [exact Halert|exact Hfalse].
Defined.

(** ** The bound of a PhotoSet *)

(** C1, at the input where the bound is lost.  The truncation at intake
    counts the photos already in the PhotoSet and not the entries that wait
    in the crop queue, and [handleCropConfirm] appends without looking at
    the bound.  A paste that is added while an upload of ten is waiting in
    the queue is therefore accepted, and the eleven confirmations leave
    eleven subject photos; in the same way six vibe photos.  Every event of
    the trace goes through the view, that is through controls which are
    mounted and not disabled when they are used, and the adding of the
    paste and every confirmation are made on a modal of the latest render,
    none on a modal that is closing. *)
Theorem photoSet_grows_past_maximum :
  length (cropQueue (cells (interact (take 5 (one_too_many Main)) (mount initial)))) = 11 ∧
  length (uploadedImages (cells (interact (one_too_many Main) (mount initial)))) = 11 ∧
  MAX_MAIN_IMAGES = 10 ∧
  length (cropQueue (cells (interact (take 5 (one_too_many Inspiration)) (mount initial))))
  = 6 ∧
  length (inspirationImages (cells (interact (one_too_many Inspiration) (mount initial))))
  = 6 ∧
  MAX_INSPIRATION_IMAGES = 5 ∧
  along on_latest_render (one_too_many Main) (mount initial) ∧
  along on_latest_render (one_too_many Inspiration) (mount initial).
Proof. vm_compute. repeat split; done. Qed.

(** * Further properties *)

(** ** Removing a photo *)

Lemma filter_index_from {A} (l : list A) : ∀ k target : nat,
  (filter (λ p, p.1 ≠ target) (imap (λ j x, (k + j, x)) l)).*2
  = if decide (k ≤ target)
    then take (target - k) l ++ drop (S (target - k)) l
    else l.
Proof.
  induction l as [|a l IH]; intros k target.
  - case_decide; [|done]. by rewrite take_nil, drop_nil.
  - rewrite imap_cons.
    rewrite (imap_ext _ (λ j x, (S k + j, x))) by (intros; simpl; f_equal; lia).
    destruct (decide (target = k)) as [->|Hne].
    + rewrite filter_cons_False by (simpl; lia).
      rewrite IH, decide_False, decide_True by lia.
      by rewrite Nat.sub_diag.
    + rewrite filter_cons_True by (simpl; lia).
      rewrite fmap_cons, IH. simpl.
      destruct (decide (k ≤ target)) as [Hle|Hgt].
      * rewrite decide_True by lia.
        by replace (target - k) with (S (target - S k)) by lia.
      * by rewrite decide_False by lia.
Qed.

Lemma filter_index_spec {A} (index : nat) (l : list A) :
  filter_index index l = take index l ++ drop (S index) l.
Proof.
  unfold filter_index.
  rewrite (imap_ext pair (λ j x, (0 + j, x))) by done.
  rewrite filter_index_from, decide_True by lia. by rewrite Nat.sub_0_r.
Qed.

(** X1.  [removeMainImage] and [removeInspirationImage] take out exactly
    the photo at the given position and keep the others in their order; a
    position beyond the end removes nothing.  Nothing else changes: not the
    other PhotoSet, not the crop queue, and not the view state, which stays
    where it is even when the last photo goes. *)
Theorem remove_takes_out_one_photo (s : State) (type : ImageType) (index : nat) :
  let s' := step match type with
                 | Main => RemoveMainImage index
                 | Inspiration => RemoveInspirationImage index
                 end s in
  photoSet type s' = take index (photoSet type s) ++ drop (S index) (photoSet type s) ∧
  (index < length (photoSet type s) →
   length (photoSet type s') = length (photoSet type s) - 1 ∧
   (∀ j, j < index → photoSet type s' !! j = photoSet type s !! j) ∧
   (∀ j, index ≤ j → photoSet type s' !! j = photoSet type s !! S j)) ∧
  (length (photoSet type s) ≤ index → s' = s) ∧
  photoSet (other type) s' = photoSet (other type) s ∧
  cropQueue s' = cropQueue s ∧
  appState s' = appState s ∧
  generatedImages s' = generatedImages s ∧
  effects s' = effects s.
Proof.
  intros s'.
  assert (Hset : photoSet type s'
                 = take index (photoSet type s) ++ drop (S index) (photoSet type s)).
  { unfold s'. destruct type; simpl; apply filter_index_spec. }
  split; [exact Hset|]. split; [|split].
  - intros Hin. rewrite Hset. split; [|split].
    + rewrite length_app, length_take, length_drop. lia.
    + intros j Hj. rewrite lookup_app_l by (rewrite length_take; lia).
      by rewrite lookup_take_lt.
    + intros j Hj. rewrite lookup_app_r by (rewrite length_take; lia).
      rewrite length_take, lookup_drop. f_equal. lia.
  - intros Hout. unfold s'. destruct type; simpl in *;
      unfold removeMainImage, removeInspirationImage,
        setUploadedImages, setInspirationImages;
      rewrite filter_index_spec, take_ge, drop_ge, app_nil_r by lia;
      by destruct s.
  - unfold s'. by destruct type.
Qed.

Lemma remove_takes_out_one_photo_witness :
  let s := initial |> setUploadedImages (λ _, ["data:a"; "data:b"; "data:c"])
                   |> setAppState (λ _, PhotosUploaded) in
  1 < length (photoSet Main s) ∧ length (photoSet Main s) ≤ 3 ∧
  uploadedImages (step (RemoveMainImage 1) s) = ["data:a"; "data:c"] ∧
  step (RemoveMainImage 3) s = s.
Proof.
  intros s.
  assert (Hin : 1 < length (photoSet Main s)) by (simpl; lia).
  assert (Hout : length (photoSet Main s) ≤ 3) by (simpl; lia).
  destruct (remove_takes_out_one_photo s Main 1) as (Hset & _).
  destruct (remove_takes_out_one_photo s Main 3) as (_ & _ & Hsame & _).
  split; [exact Hin|]. split; [exact Hout|]. split; [exact Hset|exact (Hsame Hout)].
Defined.

(** ** Pasting *)

Lemma mapM_readPasted_all (dataUrls : list string) :
  Forall (λ u, u ≠ "") dataUrls → mapM readPasted (Some <$> dataUrls) = Some dataUrls.
Proof.
  intros Hall. apply mapM_Some. induction Hall as [|u us Hu _ IH]; [constructor|].
  rewrite fmap_cons. constructor; [|done]. simpl. by destruct u.
Qed.

Lemma mapM_readPasted_one_fails (files : list File) :
  Exists (λ f, f = None ∨ f = Some "") files → mapM readPasted files = None.
Proof.
  intros Hfail. apply mapM_None_2. eapply Exists_impl; [exact Hfail|].
  by intros f [-> | ->].
Qed.

(** X2.  A paste is taken all or nothing.  With the focus in a text field,
    or with no image file on the clipboard, the listener changes nothing.
    Otherwise it starts the reads and, until they have ended, changes no
    state cell.  When every file was read to a non-empty data URL the paste
    buffer becomes exactly these URLs, in order (an earlier buffer is
    replaced, not extended), and the paste modal opens.  When one file could
    not be read, buffer and modal stay as they were and the console gets one
    line.  In no case does a paste reach the crop queue or a PhotoSet. *)
Theorem paste_is_all_or_nothing (s : State) (activeTag : option string)
    (files : list File) :
  let s1 := step (Paste activeTag files) s in
  let s2 := step (PastedRead (nextId s)) s1 in
  (activeTag = Some "TEXTAREA" ∨ activeTag = Some "INPUT" ∨ files = [] → s1 = s) ∧
  (activeTag ≠ Some "TEXTAREA" → activeTag ≠ Some "INPUT" → files ≠ [] →
   same_cells s s1 ∧ effects s1 = effects s ∧
   tasks s1 = <[nextId s := ReadPasted files]> (tasks s) ∧
   (∀ dataUrls,
      files = Some <$> dataUrls → Forall (λ u, u ≠ "") dataUrls →
      pastedImages s2 = dataUrls ∧ isPasteModalOpen s2 = true ∧
      effects s2 = effects s) ∧
   (Exists (λ f, f = None ∨ f = Some "") files →
    pastedImages s2 = pastedImages s ∧ isPasteModalOpen s2 = isPasteModalOpen s ∧
    effects s2 = effects s ++ [console_error "Error reading pasted images:"]) ∧
   cropQueue s2 = cropQueue s ∧
   uploadedImages s2 = uploadedImages s ∧
   inspirationImages s2 = inspirationImages s ∧
   tasks s2 = delete (nextId s) (tasks s)).
Proof.
  intros s1 s2. split.
  - intros Hskip. unfold s1. cbn [step]. unfold handlePaste.
    destruct Hskip as [-> | [-> | ->]]; [done|by rewrite orb_true_r|].
    by destruct (_ || _).
  - intros Harea Hinput Hfiles.
    assert (Hs1 : s1 = spawn (ReadPasted files) s).
    { unfold s1. cbn [step]. unfold handlePaste.
      rewrite !bool_decide_false by done. by destruct files. }
    clearbody s1. subst s1.
    assert (Hs2 : s2 = s |> spawn (ReadPasted files) |> finish (nextId s)
                         |> handlePaste_read files).
    { unfold s2. cbn [step tasks spawn]. by rewrite lookup_insert_eq. }
    clearbody s2. subst s2. unfold handlePaste_read.
    split; [by repeat split|]. split; [done|]. split; [done|].
    split; [|split].
    + intros dataUrls -> Hall. by rewrite mapM_readPasted_all.
    + intros Hfail. by rewrite mapM_readPasted_one_fails.
    + destruct (mapM readPasted files); simpl; by rewrite delete_insert_eq.
Qed.

Lemma paste_is_all_or_nothing_witness :
  let s := initial |> setPastedImages (λ _, ["data:old"]) in
  let good := [Some "data:a"; Some "data:b"] in
  let bad := [Some "data:a"; None] in
  (Some "BODY" ≠ Some "TEXTAREA" ∧ Some "BODY" ≠ Some "INPUT" ∧ good ≠ [] ∧
   Forall (λ u, u ≠ "") ["data:a"; "data:b"] ∧
   Exists (λ f, f = None ∨ f = Some "") bad) ∧
  step (Paste (Some "TEXTAREA") good) s = s ∧
  pastedImages (run [Paste (Some "BODY") good; PastedRead 0] s) = ["data:a"; "data:b"] ∧
  isPasteModalOpen (run [Paste (Some "BODY") good; PastedRead 0] s) = true ∧
  pastedImages (run [Paste (Some "BODY") bad; PastedRead 0] s) = ["data:old"] ∧
  isPasteModalOpen (run [Paste (Some "BODY") bad; PastedRead 0] s) = false.
Proof.
  intros s good bad.
  assert (Harea : Some "BODY" ≠ Some "TEXTAREA") by done.
  assert (Hinput : Some "BODY" ≠ Some "INPUT") by done.
  assert (Hgood : good ≠ []) by done.
  assert (Hbad : bad ≠ []) by done.
  assert (Hall : Forall (λ u, u ≠ "") ["data:a"; "data:b"]) by (repeat constructor; done).
  assert (Hfail : Exists (λ f, f = None ∨ f = Some "") bad)
    by (apply Exists_cons_tl, Exists_cons_hd; by left).
  destruct (paste_is_all_or_nothing s (Some "TEXTAREA") good) as [Hskip _].
  destruct (paste_is_all_or_nothing s (Some "BODY") good) as [_ Hread].
  destruct (Hread Harea Hinput Hgood) as (_ & _ & _ & Hfilled & _).
  destruct (Hfilled ["data:a"; "data:b"] eq_refl Hall) as (Hbuffer & Hopen & _).
  destruct (paste_is_all_or_nothing s (Some "BODY") bad) as [_ Hread'].
  destruct (Hread' Harea Hinput Hbad) as (_ & _ & _ & _ & Hkept & _).
  destruct (Hkept Hfail) as (Hbuffer' & Hopen' & _).
  split; [done|]. split; [apply Hskip; by left|].
  split; [exact Hbuffer|]. split; [exact Hopen|]. split; [exact Hbuffer'|exact Hopen'].
Defined.

(** X3.  A paste that is canceled leaves no trace: after the paste, the end
    of its reads and [handleCancelPaste], the buffer is empty and the modal
    closed, and every other state cell, the crop queue and both PhotoSets
    among them, holds what it held before the paste; with the buffer empty
    and the modal closed beforehand, all cells do.  (This is about the
    state cells; what the closing modal can still do is X15.) *)
Theorem canceled_paste_leaves_no_trace (s : State) (activeTag : option string)
    (files : list File) :
  let s' := run [Paste activeTag files; PastedRead (nextId s); CancelPaste] s in
  pastedImages s' = [] ∧
  isPasteModalOpen s' = false ∧
  uploadedImages s' = uploadedImages s ∧
  inspirationImages s' = inspirationImages s ∧
  cropQueue s' = cropQueue s ∧
  generatedImages s' = generatedImages s ∧
  appState s' = appState s ∧
  (pastedImages s = [] → isPasteModalOpen s = false → same_cells s s').
Proof.
  intros s'. unfold s', run. cbn [foldl step]. unfold handlePaste, handlePaste_read.
  destruct (_ || _).
  - destruct (tasks s !! nextId s) as [[]|]; simpl;
      repeat split; try done; try (destruct (mapM readPasted _); done).
    all: destruct (mapM readPasted _); simpl; done.
  - destruct (0 <? length files).
    + cbn [tasks spawn]. rewrite lookup_insert_eq.
      destruct (mapM readPasted files); simpl; by repeat split.
    + destruct (tasks s !! nextId s) as [[]|]; simpl;
        repeat split; try done; try (destruct (mapM readPasted _); done).
      all: destruct (mapM readPasted _); simpl; done.
Qed.

Lemma canceled_paste_leaves_no_trace_witness :
  let s := initial |> setUploadedImages (λ _, ["data:me"])
                   |> setCropQueue (λ _, [{| dataUrl := Some "data:q"; type := Main |}]) in
  let s' := run [Paste (Some "BODY") [Some "data:a"; Some "data:b"]; PastedRead 0;
                 CancelPaste] s in
  (pastedImages s = [] ∧ isPasteModalOpen s = false) ∧
  same_cells s s' ∧
  pastedImages (run [Paste (Some "BODY") [Some "data:a"; Some "data:b"]; PastedRead 0] s)
  = ["data:a"; "data:b"].
Proof.
  intros s s'.
  destruct (canceled_paste_leaves_no_trace s (Some "BODY") [Some "data:a"; Some "data:b"])
    as (_ & _ & _ & _ & _ & _ & _ & Hsame).
  split; [done|]. split; [exact (Hsame eq_refl eq_refl)|reflexivity].
Defined.

(** ** What the events leave alone *)

Ltac unfold_handlers :=
  unfold handlePaste, handlePaste_read, handleAddPastedImages, handleCancelPaste,
    handleImageUpload, handleImageUpload_read, removeMainImage,
    removeInspirationImage, handleCropConfirm, handleCropCancel,
    handleGenerateClick, handleGenerateClick_settled, handleGenerateClick_joined,
    handleRegenerateSlot, handleRegenerateSlot_settled, handleReset,
    handleDownloadIndividualImage, handleDownloadAlbum, handleDownloadAlbum_settled.

(** The two handlers of the modals, whatever render they belong to: the
    adding of a paste touches no PhotoSet, and a confirm leaves a PhotoSet
    as it was or appends the cropped image. *)
Lemma handleAddPastedImages_photoSet (type t : ImageType) (captured s : State) :
  photoSet type (handleAddPastedImages t captured s) = photoSet type s
  ∧ appState (handleAddPastedImages t captured s) = appState s.
Proof. unfold handleAddPastedImages. case_match; by destruct type. Qed.

Lemma handleCropConfirm_photoSet (type : ImageType) (image : bool)
    (canvas : option string) (captured s : State) :
  photoSet type (handleCropConfirm image canvas captured s) = photoSet type s
  ∨ ∃ croppedDataUrl, canvas = Some croppedDataUrl
      ∧ photoSet type (handleCropConfirm image canvas captured s)
        = photoSet type s ++ [croppedDataUrl].
Proof.
  unfold handleCropConfirm.
  destruct type; repeat case_match; simpl;
    first [by left | right; eexists; by repeat split].
Qed.

Lemma handleCropConfirm_appState (image : bool) (canvas : option string)
    (captured s : State) :
  appState (handleCropConfirm image canvas captured s) = PhotosUploaded
  ∨ appState (handleCropConfirm image canvas captured s) = appState s
    ∧ uploadedImages (handleCropConfirm image canvas captured s) = uploadedImages s
    ∧ inspirationImages (handleCropConfirm image canvas captured s)
      = inspirationImages s.
Proof.
  unfold handleCropConfirm. repeat case_match; simpl; first [by left | by right].
Qed.

(** X4.  Photos are committed by a crop confirm and by nothing else.  Any
    other event leaves in each PhotoSet a sublist of what was there (the
    same photos or fewer, in the same order): an upload, a paste or the end
    of a read adds nothing to a PhotoSet.  A crop confirm leaves a PhotoSet
    as it was or appends one photo.  This holds of the handlers of the
    latest render and of whatever the mounted tree receives, a click on a
    closing modal included. *)
Theorem only_crop_confirm_adds_photos (s : State) (e : Event) (type : ImageType) :
  ((∀ image canvas, e ≠ CropConfirm image canvas) →
   photoSet type (step e s) `sublist_of` photoSet type s) ∧
  (∀ image canvas,
     e = CropConfirm image canvas →
     photoSet type (step e s) = photoSet type s
     ∨ ∃ croppedDataUrl, canvas = Some croppedDataUrl
         ∧ photoSet type (step e s) = photoSet type s ++ [croppedDataUrl]) ∧
  (∀ v, cells v = s →
     ((∀ image canvas, e ≠ CropConfirm image canvas) →
      photoSet type (cells (dispatch e v)) `sublist_of` photoSet type s) ∧
     (∀ image canvas,
        e = CropConfirm image canvas →
        photoSet type (cells (dispatch e v)) = photoSet type s
        ∨ ∃ croppedDataUrl, canvas = Some croppedDataUrl
            ∧ photoSet type (cells (dispatch e v)) = photoSet type s ++ [croppedDataUrl])).
Proof.
  assert (Hstep : (∀ image canvas, e ≠ CropConfirm image canvas) →
                  photoSet type (step e s) `sublist_of` photoSet type s).
  { intros Hother. destruct e; try (by edestruct Hother); clear Hother;
      cbn [step]; unfold_handlers; destruct type;
      repeat case_match; simpl; try done;
      try apply sublist_nil_l;
      rewrite filter_index_spec, <- delete_take_drop; apply sublist_delete. }
  split; [exact Hstep|]. split.
  - intros image canvas ->. cbn [step]. unfold handleCropConfirm.
    destruct type; repeat case_match; simpl; eauto.
  - intros v <-. rewrite cells_dispatch. split.
    + intros Hother. destruct (enabled e v); [|done].
      destruct e; try (by apply Hstep); try (by edestruct Hother); try done.
      cbn [call]. case_match; [|done].
      by rewrite (proj1 (handleAddPastedImages_photoSet _ _ _ _)).
    + intros image canvas ->. destruct (enabled _ v); [|by left].
      cbn [call]. case_match; [|by left].
      destruct (handleCropConfirm_photoSet type image canvas s (cells v))
        as [Hsame|(croppedDataUrl & Hcanvas & Happended)]; eauto.
Qed.

Lemma only_crop_confirm_adds_photos_witness :
  let entry := {| dataUrl := Some "data:file"; type := Main |} in
  let s := initial |> setUploadedImages (λ _, ["data:a"; "data:b"])
                   |> setCropQueue (λ _, [entry])
                   |> setCompletedCrop (λ _, Some someCrop)
                   |> spawn (ReadUpload [entry]) in
  (∀ image canvas, UploadRead 0 ≠ CropConfirm image canvas) ∧
  cells (mount s) = s ∧
  length (cropQueue (step (UploadRead 0) s)) = 2 ∧
  photoSet Main (step (UploadRead 0) s) `sublist_of` ["data:a"; "data:b"] ∧
  photoSet Main (step (RemoveMainImage 0) s) `sublist_of` ["data:a"; "data:b"] ∧
  photoSet Main (cells (dispatch (UploadRead 0) (mount s)))
    `sublist_of` ["data:a"; "data:b"] ∧
  (photoSet Main (step (CropConfirm true (Some "data:c")) s) = ["data:a"; "data:b"]
   ∨ ∃ croppedDataUrl, Some "data:c" = Some croppedDataUrl
       ∧ photoSet Main (step (CropConfirm true (Some "data:c")) s)
         = ["data:a"; "data:b"] ++ [croppedDataUrl]).
Proof.
  intros entry s.
  assert (Hother : ∀ image canvas, UploadRead 0 ≠ CropConfirm image canvas) by done.
  assert (Hother' : ∀ image canvas, RemoveMainImage 0 ≠ CropConfirm image canvas) by done.
  destruct (only_crop_confirm_adds_photos s (UploadRead 0) Main) as (Hread & _ & Hview).
  destruct (only_crop_confirm_adds_photos s (RemoveMainImage 0) Main) as [Hremove _].
  destruct (only_crop_confirm_adds_photos s (CropConfirm true (Some "data:c")) Main)
    as (_ & Hconfirm & _).
  destruct (Hview (mount s) (cells_mount s)) as [Hreceived _].
  split; [exact Hother|]. split; [exact (cells_mount s)|]. split; [reflexivity|].
  split; [exact (Hread Hother)|]. split; [exact (Hremove Hother')|].
  split; [exact (Hreceived Hother)|].
  exact (Hconfirm true (Some "data:c") eq_refl).
Defined.

(** ** The idle view *)

Lemma run_snoc (trace : list Event) (e : Event) (s : State) :
  run (trace ++ [e]) s = step e (run trace s).
Proof. unfold run. by rewrite foldl_snoc. Qed.

Lemma idle_is_empty_step (e : Event) (s : State) :
  idle_is_empty s → idle_is_empty (step e s).
Proof.
  unfold idle_is_empty. intros Hinv.
  destruct e; cbn [step]; unfold_handlers; repeat case_match; simpl;
    try done; intros Hidle; try discriminate;
    destruct (Hinv Hidle) as [Hup Hinsp]; rewrite ?Hup, ?Hinsp; done.
Qed.

Lemma idle_is_empty_dispatch (e : Event) (v : View) :
  idle_is_empty (cells v) → idle_is_empty (cells (dispatch e v)).
Proof.
  intros Hinv. rewrite cells_dispatch. destruct (enabled e v); [|done].
  destruct e; try (by apply idle_is_empty_step); try done; cbn [call];
    (case_match; [|done]); unfold idle_is_empty in *.
  - destruct (handleAddPastedImages_photoSet Main type0 s (cells v)) as [Hup Hstate].
    destruct (handleAddPastedImages_photoSet Inspiration type0 s (cells v)) as [Hinsp _].
    simpl in Hup, Hinsp. rewrite Hstate, Hup, Hinsp. exact Hinv.
  - destruct (handleCropConfirm_appState image canvas s (cells v))
      as [Hstate|(Hstate & Hup & Hinsp)]; [by rewrite Hstate|].
    rewrite Hstate, Hup, Hinsp. exact Hinv.
Qed.

(** X5.  The view is idle only while both PhotoSets are empty: from a
    state in which this holds (the initial state is one), whatever events
    follow, be it as calls from the latest render or through the mounted
    tree with its closing modals, a state that shows the idle view holds
    no photo.  (The converse fails: removing the last photo leaves the view
    at photos-uploaded.) *)
Theorem idle_view_holds_no_photo (s : State) (trace : list Event) :
  (appState s = Idle → uploadedImages s = [] ∧ inspirationImages s = []) →
  (appState (run trace s) = Idle →
   uploadedImages (run trace s) = [] ∧ inspirationImages (run trace s) = []) ∧
  (∀ v, cells v = s →
        appState (cells (interact trace v)) = Idle →
        uploadedImages (cells (interact trace v)) = []
        ∧ inspirationImages (cells (interact trace v)) = []).
Proof.
  intros Hinv. split.
  - revert s Hinv. induction trace as [|e trace IH]; intros s Hinv; [done|].
    rewrite run_cons. apply IH. by apply idle_is_empty_step.
  - intros v <-. revert v Hinv.
    induction trace as [|e trace IH]; intros v Hinv; [done|].
    cbn [interact foldl]. apply IH. by apply idle_is_empty_dispatch.
Qed.

Lemma idle_view_holds_no_photo_witness :
  let trace := [ImageUpload (Some [Some "data:file"]) Main; UploadRead 0;
                CropComplete someCrop; CropConfirm true (Some "data:crop");
                RemoveMainImage 0] in
  (appState initial = Idle → uploadedImages initial = [] ∧ inspirationImages initial = []) ∧
  appState (run (trace ++ [Reset]) initial) = Idle ∧
  uploadedImages (run (trace ++ [Reset]) initial) = [] ∧
  uploadedImages (run trace initial) = [] ∧
  appState (run trace initial) = PhotosUploaded ∧
  appState (cells (interact trace (mount initial))) = PhotosUploaded.
Proof.
  intros trace.
  assert (Hinitial : appState initial = Idle →
                     uploadedImages initial = [] ∧ inspirationImages initial = [])
    by done.
  assert (Hidle : appState (run (trace ++ [Reset]) initial) = Idle) by reflexivity.
  destruct (idle_view_holds_no_photo initial (trace ++ [Reset]) Hinitial) as [Hrun _].
  destruct (Hrun Hidle) as [Hup _].
  split; [exact Hinitial|]. split; [exact Hidle|]. split; [exact Hup|].
  split; [reflexivity|]. split; reflexivity.
Defined.

(** ** Promises in flight *)

Lemma weigh_empty (w : Task → nat) : weigh w ∅ = 0.
Proof. unfold weigh. by rewrite map_to_list_empty. Qed.

Lemma weigh_insert_fresh (w : Task → nat) (m : gmap nat Task) (i : nat) (t : Task) :
  m !! i = None → weigh w (<[i := t]> m) = w t + weigh w m.
Proof. intros Hi. unfold weigh. by rewrite map_to_list_insert. Qed.

Lemma weigh_delete (w : Task → nat) (m : gmap nat Task) (i : nat) (t : Task) :
  m !! i = Some t → weigh w m = w t + weigh w (delete i m).
Proof. intros Hi. unfold weigh. by rewrite <- (map_to_list_delete m i t). Qed.

Lemma weigh_insert_over (w : Task → nat) (m : gmap nat Task) (i : nat) (t t' : Task) :
  m !! i = Some t → weigh w (<[i := t']> m) + w t = w t' + weigh w m.
Proof.
  intros Hi. rewrite <- insert_delete_eq.
  rewrite weigh_insert_fresh by apply lookup_delete_eq.
  rewrite (weigh_delete w m i t Hi). lia.
Qed.

Lemma fresh_lookup (s : State) (id : nat) (t : Task) :
  fresh s → tasks s !! id = Some t → id < nextId s.
Proof.
  intros Hfresh Hid. destruct (decide (id < nextId s)) as [|Hge]; [done|].
  rewrite Hfresh in Hid by lia. done.
Qed.

Lemma fresh_initial : fresh initial.
Proof. intros id _. apply lookup_empty. Qed.

Lemma fresh_spawn (t : Task) (s : State) : fresh s → fresh (spawn t s).
Proof.
  intros Hfresh id Hid. simpl in *. rewrite lookup_insert_ne by lia.
  apply Hfresh. lia.
Qed.

Lemma fresh_step (e : Event) (s : State) : fresh s → fresh (step e s).
Proof.
  intros Hfresh.
  assert (Hdel : ∀ i id, nextId s ≤ id → delete i (tasks s) !! id = None).
  { intros i id Hid. rewrite lookup_delete. case_decide; [done|by apply Hfresh]. }
  assert (Hins : ∀ t id, S (nextId s) ≤ id → <[nextId s := t]> (tasks s) !! id = None).
  { intros t id Hid. rewrite lookup_insert_ne by lia. apply Hfresh. lia. }
  destruct e; cbn [step]; unfold_handlers; repeat case_match;
    try done; intros id' Hid'; simpl in *;
    try (by apply Hfresh); try (by apply Hdel); try (by apply Hins).
  all: rewrite ?lookup_delete; repeat case_decide; try done.
  all: rewrite lookup_insert_ne; [by apply Hfresh; lia| ]; try lia.
  all: intros ->;
    match goal with H : tasks _ !! _ = Some _ |- _ => rewrite Hfresh in H by lia end;
    done.
Qed.

(** ** The composing guard *)

Ltac weigh_facts w :=
  repeat match goal with
         | H : tasks _ !! ?i = Some ?t |- context [weigh _ (delete ?i _)] =>
             pose proof (weigh_delete w _ i t H); revert H
         | H : tasks _ !! ?i = Some ?t |- context [weigh _ (<[?i := ?t']> _)] =>
             pose proof (weigh_insert_over w _ i t t' H); revert H
         end; intros.

(** The two handlers of the modals start and end no promise, whatever
    render they belong to. *)
Lemma handleAddPastedImages_tasks (type : ImageType) (captured s : State) :
  tasks (handleAddPastedImages type captured s) = tasks s
  ∧ nextId (handleAddPastedImages type captured s) = nextId s
  ∧ isDownloading (handleAddPastedImages type captured s) = isDownloading s
  ∧ generationCount (handleAddPastedImages type captured s) = generationCount s.
Proof. unfold handleAddPastedImages. by case_match. Qed.

Lemma handleCropConfirm_tasks (image : bool) (canvas : option string)
    (captured s : State) :
  tasks (handleCropConfirm image canvas captured s) = tasks s
  ∧ nextId (handleCropConfirm image canvas captured s) = nextId s
  ∧ isDownloading (handleCropConfirm image canvas captured s) = isDownloading s
  ∧ generationCount (handleCropConfirm image canvas captured s) = generationCount s.
Proof. unfold handleCropConfirm. by repeat case_match. Qed.

Lemma fresh_call (e : Event) (v : View) : fresh (cells v) → fresh (call e v).
Proof.
  intros Hfresh.
  destruct e; try (by apply fresh_step); cbn [call]; case_match; try done.
  - destruct (handleAddPastedImages_tasks type0 s (cells v)) as (Htasks & Hnext & _).
    intros id. rewrite Htasks, Hnext. apply Hfresh.
  - destruct (handleCropConfirm_tasks image canvas s (cells v)) as (Htasks & Hnext & _).
    intros id. rewrite Htasks, Hnext. apply Hfresh.
Qed.

Lemma fresh_dispatch (e : Event) (v : View) :
  fresh (cells v) → fresh (cells (dispatch e v)).
Proof.
  intros Hfresh. rewrite cells_dispatch. destruct (enabled e v); [|done].
  destruct e; try done; by apply fresh_call.
Qed.

Lemma one_composition_dispatch (e : Event) (v : View) :
  fresh (cells v) → one_composition (cells v) → one_composition (cells (dispatch e v)).
Proof.
  rewrite cells_dispatch. unfold one_composition. intros Hfresh Hone.
  destruct (enabled e v) eqn:Henabled; [|done].
  destruct v as [s paste crop gone]. cbn [cells] in *.
  assert (Hnew : ∀ t, weigh composing (<[nextId s := t]> (tasks s))
                      = composing t + weigh composing (tasks s))
    by (intros; apply weigh_insert_fresh, Hfresh; lia).
  assert (Hnone : delete (nextId s) (tasks s) = tasks s)
    by (apply delete_id, Hfresh; lia).
  destruct e; cbn [call step enabled cells pasteModal cropModal unmounted] in *;
    try done.
  all: try (destruct paste as [captured|]; [|done];
            match goal with
            | |- context [handleAddPastedImages ?t ?c ?s] =>
                destruct (handleAddPastedImages_tasks t c s) as (-> & _ & -> & _)
            end; done).
  all: try (destruct crop as [captured|]; [|done];
            match goal with
            | |- context [handleCropConfirm ?i ?u ?c ?s] =>
                destruct (handleCropConfirm_tasks i u c s) as (-> & _ & -> & _)
            end; done).
  all: unfold_handlers; repeat case_match;
    simpl in *; rewrite ?delete_insert_eq, ?Hnone, ?Hnew; simpl; try done.
  all: weigh_facts composing; simpl in *.
  all: try (destruct (isDownloading s); simpl in *; lia).
Qed.

Lemma weigh_positive (w : Task → nat) (m : gmap nat Task) :
  0 < weigh w m → ∃ id t, m !! id = Some t ∧ 0 < w t.
Proof.
  unfold weigh. intros Hpos.
  assert (Hex : ∃ p, p ∈ map_to_list m ∧ 0 < w p.2).
  { induction (map_to_list m) as [|p l IH]; simpl in Hpos; [lia|].
    destruct (decide (0 < w p.2)) as [Hp|Hp].
    - exists p. split; [apply elem_of_cons; by left|done].
    - destruct IH as (q & Hq & Hw); [lia|].
      exists q. split; [apply elem_of_cons; by right|done]. }
  destruct Hex as ([id t] & Hin & Hw). exists id, t.
  split; [by apply elem_of_map_to_list|done].
Qed.

(** X6.  Through the mounted controls there is never more than one
    composition of the album in flight, and [isDownloading] is true exactly
    while there is one: from cells for which this holds (the initial state
    is such), whatever is mounted and whichever modal is closing, it holds
    after any events that go through the view.  So the button is never
    left disabled with nothing in flight: whenever [isDownloading] is true
    a composition is pending, and its settling sets the flag back. *)
Theorem composing_guard_counts_compositions (v : View) (trace : list Event) :
  fresh (cells v) →
  weigh composing (tasks (cells v)) = (if isDownloading (cells v) then 1 else 0) →
  let s' := cells (interact trace v) in
  weigh composing (tasks s') = (if isDownloading s' then 1 else 0) ∧
  (isDownloading s' = true →
   ∃ id, tasks s' !! id = Some AlbumPage
         ∧ ∀ outcome, isDownloading (step (AlbumPageSettled id outcome) s') = false).
Proof.
  intros Hfresh Hone s'.
  assert (Hinv : fresh s' ∧ one_composition s').
  { unfold s', interact. clear s'. revert v Hfresh Hone.
    induction trace as [|e trace IH]; intros v Hfresh Hone; [done|].
    simpl. apply IH; [by apply fresh_dispatch|by apply one_composition_dispatch]. }
  destruct Hinv as [_ Hone']. split; [exact Hone'|].
  intros Hbusy. unfold one_composition in Hone'. rewrite Hbusy in Hone'.
  destruct (weigh_positive composing (tasks s')) as (id & t & Hid & Ht); [lia|].
  destruct t; simpl in Ht; try lia.
  exists id. split; [done|]. intros outcome. cbn [step]. rewrite Hid.
  by destruct outcome.
Qed.

Lemma composing_guard_counts_compositions_witness :
  let slot := Item {| status := Done; url := Some "data:r1"; error := None |} in
  let s := initial |> setGeneratedImages (λ _, [slot])
                   |> setAppState (λ _, ResultsShown) in
  let s' := cells (interact [DownloadAlbum; DownloadAlbum] (mount s)) in
  (fresh (cells (mount s))
   ∧ weigh composing (tasks (cells (mount s)))
     = (if isDownloading (cells (mount s)) then 1 else 0)) ∧
  isDownloading s' = true ∧
  weigh composing (tasks s') = 1 ∧
  weigh composing (tasks (run [DownloadAlbum; DownloadAlbum] s)) = 2.
Proof.
  intros slot s s'.
  assert (Hfresh : fresh (cells (mount s))) by (intros id _; apply lookup_empty).
  assert (Hone : weigh composing (tasks (cells (mount s)))
                 = (if isDownloading (cells (mount s)) then 1 else 0))
    by (vm_compute; reflexivity).
  destruct (composing_guard_counts_compositions (mount s) [DownloadAlbum; DownloadAlbum]
              Hfresh Hone) as [Hcount _].
  assert (Hbusy : isDownloading s' = true) by (vm_compute; reflexivity).
  cbv zeta in Hcount. fold s' in Hcount. rewrite Hbusy in Hcount.
  split; [exact (conj Hfresh Hone)|]. split; [exact Hbusy|]. split; [exact Hcount|].
  vm_compute. reflexivity.
Defined.

(** ** The bound of a PhotoSet, when intakes wait *)

Lemma ofType_app (category : ImageType) (l k : list QueueItem) :
  ofType category (l ++ k) = ofType category l + ofType category k.
Proof. unfold ofType. by rewrite filter_app, length_app. Qed.

Lemma ofType_cons (category : ImageType) (item : QueueItem) (q : list QueueItem) :
  ofType category (item :: q)
  = (if decide (type item = category) then 1 else 0) + ofType category q.
Proof. unfold ofType. rewrite filter_cons. by case_decide. Qed.

Lemma ofType_tail (category : ImageType) (q : list QueueItem) :
  ofType category (tail q) ≤ ofType category q.
Proof. destruct q as [|item q]; [done|]. rewrite ofType_cons. simpl. lia. Qed.

Lemma ofType_uniform (category t : ImageType) (items : list QueueItem) :
  Forall (λ item, type item = t) items →
  ofType category items = if decide (t = category) then length items else 0.
Proof.
  induction 1 as [|item items Hitem _ IH]; [by case_decide|].
  rewrite ofType_cons, IH, Hitem. simpl. case_decide; lia.
Qed.

Lemma slice_available {A} (l : list A) (maxImages currentCount : nat) :
  currentCount ≤ maxImages →
  slice l 0 (Some (Z.of_nat maxImages - Z.of_nat currentCount)%Z)
  = take (maxImages - currentCount) l.
Proof.
  intros Hle. rewrite <- slice_prefix. do 2 f_equal. lia.
Qed.

(** The files an upload is reading change only when an upload starts and
    when its reads end. *)
Lemma beingRead_step (category : ImageType) (e : Event) (s : State) :
  fresh s →
  (∀ targetFiles type, e ≠ ImageUpload targetFiles type) →
  (∀ id, e ≠ UploadRead id) →
  weigh (beingRead category) (tasks (step e s)) = weigh (beingRead category) (tasks s).
Proof.
  intros Hfresh Hupload Hread.
  assert (Hnew : ∀ t, weigh (beingRead category) (<[nextId s := t]> (tasks s))
                      = beingRead category t + weigh (beingRead category) (tasks s))
    by (intros; apply weigh_insert_fresh, Hfresh; lia).
  assert (Hnone : delete (nextId s) (tasks s) = tasks s)
    by (apply delete_id, Hfresh; lia).
  destruct e; try (by edestruct Hupload); try (by edestruct Hread);
    clear Hupload Hread;
    cbn [step]; unfold_handlers; repeat case_match;
    cbn [tasks setUploadedImages setInspirationImages setUserPrompt
           setGeneratedImages setIsDownloading setAppState setGenerationCount
           setCropQueue setCrop setCompletedCrop setPastedImages
           setIsPasteModalOpen setTasks spawn emit finish] in *;
    rewrite ?delete_insert_eq, ?Hnone, ?Hnew; try done.
  all: weigh_facts (beingRead category); simpl in *; rewrite ?Hnone; lia.
Qed.

(** The crop queue changes only at the end of an upload's reads, when a
    paste is added, and at a crop confirm or skip. *)
Lemma cropQueue_step (e : Event) (s : State) :
  (∀ id, e ≠ UploadRead id) → (∀ type, e ≠ AddPastedImages type) →
  (∀ image canvas, e ≠ CropConfirm image canvas) → e ≠ CropCancel →
  cropQueue (step e s) = cropQueue s.
Proof.
  intros Hread Hadd Hconfirm Hskip.
  destruct e; try done; clear Hskip;
    try (exfalso; by eapply Hread); try (exfalso; by eapply Hadd);
    try (exfalso; by eapply Hconfirm);
    cbn [step]; unfold_handlers; repeat case_match; done.
Qed.

Lemma photoSet_step (category : ImageType) (e : Event) (s : State) :
  (∀ image canvas, e ≠ CropConfirm image canvas) →
  length (photoSet category (step e s)) ≤ length (photoSet category s).
Proof.
  intros Hother. apply sublist_length.
  destruct e; try (by edestruct Hother); clear Hother;
    cbn [step]; unfold_handlers; destruct category;
    repeat case_match; simpl; try done;
    try apply sublist_nil_l;
    rewrite filter_index_spec, <- delete_take_drop; apply sublist_delete.
Qed.

Lemma ofType_entries {A} (category t : ImageType) (f : A → option string)
    (l : list A) :
  ofType category ((λ x, {| dataUrl := f x; type := t |}) <$> l)
  = if decide (t = category) then length l else 0.
Proof.
  rewrite (ofType_uniform category t), length_fmap; [done|].
  by apply Forall_fmap, Forall_forall.
Qed.

Lemma pipeline_add_pasted (category t : ImageType) (s : State) :
  pipeline category s ≤ categoryMax category →
  (t = category →
   ofType category (cropQueue s) = 0 ∧ weigh (beingRead category) (tasks s) = 0) →
  pipeline category (step (AddPastedImages t) s) ≤ categoryMax category.
Proof.
  unfold pipeline. intros Hbound Hwaits. cbn [step]. unfold handleAddPastedImages.
  destruct (_ <=? _)%Z eqn:Hslots; [done|]. apply Z.leb_gt in Hslots.
  cbn [photoSet cropQueue tasks setCropQueue setIsPasteModalOpen setPastedImages
         uploadedImages inspirationImages].
  rewrite ofType_app, (ofType_entries category t Some).
  destruct (decide (t = category)) as [->|Hne]; [|destruct category; simpl in *; lia].
  destruct (Hwaits eq_refl) as [Hqueue Hreads]. rewrite Hqueue, Hreads in *.
  destruct category; cbn [photoSet categoryMax] in *;
    rewrite slice_available, length_take by lia;
    cbn [uploadedImages inspirationImages setPastedImages setIsPasteModalOpen
           setCropQueue spawn]; lia.
Qed.

Lemma pipeline_upload (category t : ImageType) (targetFiles : option (list File))
    (s : State) :
  fresh s →
  pipeline category s ≤ categoryMax category →
  (t = category →
   ofType category (cropQueue s) = 0 ∧ weigh (beingRead category) (tasks s) = 0) →
  pipeline category (step (ImageUpload targetFiles t) s) ≤ categoryMax category.
Proof.
  unfold pipeline. intros Hfresh Hbound Hwaits. cbn [step]. unfold handleImageUpload.
  destruct targetFiles as [targetFiles|]; [|done].
  cbn [photoSet cropQueue tasks spawn uploadedImages inspirationImages].
  rewrite weigh_insert_fresh by (apply Hfresh; lia).
  cbn [beingRead]. rewrite (ofType_entries category t (λ file, file)).
  destruct (decide (t = category)) as [->|Hne]; [|destruct category; simpl in *; lia].
  destruct (Hwaits eq_refl) as [Hqueue Hreads]. rewrite Hqueue, Hreads in *.
  destruct category; cbn [photoSet categoryMax] in *;
    rewrite slice_available, length_take by lia;
    cbn [uploadedImages inspirationImages setPastedImages setIsPasteModalOpen
           setCropQueue spawn]; lia.
Qed.

Lemma pipeline_upload_read (category : ImageType) (id : nat) (s : State) :
  pipeline category s ≤ categoryMax category →
  pipeline category (step (UploadRead id) s) ≤ categoryMax category.
Proof.
  unfold pipeline. intros Hbound. cbn [step].
  destruct (tasks s !! id) as [[items| | | |]|] eqn:Htask; try done.
  rewrite (weigh_delete (beingRead category) _ _ _ Htask) in Hbound.
  cbn [beingRead] in Hbound. unfold handleImageUpload_read.
  cbn [photoSet cropQueue tasks finish setTasks setCropQueue
         uploadedImages inspirationImages].
  rewrite ofType_app. destruct category; simpl in *; lia.
Qed.

Lemma pipeline_crop_confirm (category : ImageType) (image : bool)
    (canvas : option string) (s : State) :
  pipeline category s ≤ categoryMax category →
  pipeline category (step (CropConfirm image canvas) s) ≤ categoryMax category.
Proof.
  unfold pipeline. intros Hbound. cbn [step]. unfold handleCropConfirm.
  destruct image; [|done]. destruct (completedCrop s); [|done].
  destruct (cropQueue s) as [|currentItem q] eqn:Hqueue; [by rewrite Hqueue|].
  destruct canvas as [croppedDataUrl|];
    [|cbn [photoSet cropQueue tasks emit uploadedImages inspirationImages];
      by rewrite Hqueue].
  rewrite ofType_cons in Hbound.
  destruct (type currentItem) eqn:Htype, category;
    cbn [photoSet cropQueue tasks setUploadedImages setInspirationImages
           setAppState setCropQueue setCrop setCompletedCrop
           uploadedImages inspirationImages] in *;
    rewrite Hqueue, slice_rest, ?length_app; simpl in *; lia.
Qed.

Lemma pipeline_crop_cancel (category : ImageType) (s : State) :
  pipeline category s ≤ categoryMax category →
  pipeline category (step CropCancel s) ≤ categoryMax category.
Proof.
  unfold pipeline. intros Hbound. cbn [step]. unfold handleCropCancel.
  cbn [photoSet cropQueue tasks setCropQueue setCrop setCompletedCrop
         uploadedImages inspirationImages].
  rewrite slice_rest. pose proof (ofType_tail category (cropQueue s)).
  destruct category; simpl in *; lia.
Qed.

Lemma pipeline_step (category : ImageType) (e : Event) (s : State) :
  fresh s →
  pipeline category s ≤ categoryMax category →
  match e with
  | ImageUpload _ type | AddPastedImages type =>
      type = category →
      ofType category (cropQueue s) = 0 ∧ weigh (beingRead category) (tasks s) = 0
  | _ => True
  end →
  pipeline category (step e s) ≤ categoryMax category.
Proof.
  intros Hfresh Hbound Hwaits.
  assert (Hplain :
    (∀ targetFiles type, e ≠ ImageUpload targetFiles type) →
    (∀ id, e ≠ UploadRead id) → (∀ type, e ≠ AddPastedImages type) →
    (∀ image canvas, e ≠ CropConfirm image canvas) → e ≠ CropCancel →
    pipeline category (step e s) ≤ categoryMax category).
  { intros Hupload Hread Hadd Hconfirm Hskip. unfold pipeline in *.
    rewrite beingRead_step, cropQueue_step by done.
    pose proof (photoSet_step category e s Hconfirm). lia. }
  destruct e; try (by apply Hplain); clear Hplain.
  - by apply pipeline_add_pasted.
  - by apply pipeline_upload.
  - by apply pipeline_upload_read.
  - by apply pipeline_crop_confirm.
  - by apply pipeline_crop_cancel.
Qed.

(** X7.  The maximum of a PhotoSet is kept as long as intakes wait and no
    click lands on a modal that is closing.  Count for a category the
    photos in its PhotoSet, its entries in the crop queue and its files
    still being read.  If this count is within the maximum (as in the
    initial state), every upload and every adding of a paste for the
    category comes when none of its entries is waiting in the queue or
    being read, and every adding of a paste and every crop confirm is made
    on a modal that the latest render returned, then after any events that
    go through the view the count, and so the PhotoSet, is still within
    the maximum.  (The input that overfills a PhotoSet in C1 makes an
    intake while entries are waiting; a confirm on the crop modal while it
    closes overfills it without any such intake.) *)
Theorem photoSet_bound_kept_when_intakes_wait
    (category : ImageType) (trace : list Event) (v : View) :
  rendered v →
  fresh (cells v) →
  pipeline category (cells v) ≤ categoryMax category →
  along (intake_waits category) trace v →
  along on_latest_render trace v →
  length (photoSet category (cells (interact trace v))) ≤ categoryMax category ∧
  pipeline category (cells (interact trace v)) ≤ categoryMax category.
Proof.
  intros Hv Hfresh Hbound Hwaits Hlatest.
  assert (Hkept : pipeline category (cells (interact trace v)) ≤ categoryMax category).
  { revert v Hv Hfresh Hbound Hwaits Hlatest.
    induction trace as [|e trace IH]; intros v Hv Hfresh Hbound Hwaits Hlatest; [done|].
    destruct Hwaits as [Hnow Hlater]. destruct Hlatest as [Hlive Hlives].
    cbn [interact foldl]. fold (interact trace (dispatch e v)).
    apply IH; [by apply rendered_dispatch|by apply fresh_dispatch| |done|done].
    rewrite cells_dispatch. destruct (enabled e v) eqn:Henabled; [|done].
    assert (Hstep : pipeline category (step e (cells v)) ≤ categoryMax category)
      by (apply pipeline_step; [done..|]; by destruct e).
    rewrite <- (call_latest e v) in Hstep by done.
    by destruct e. }
  split; [|exact Hkept]. unfold pipeline in Hkept. lia.
Qed.

Lemma photoSet_bound_kept_when_intakes_wait_witness :
  let file := Some "data:image/png;base64,file" in
  let filled := [ImageUpload (Some (replicate 12 file)) Main; UploadRead 0]
                ++ mjoin (replicate 10 cropAndSave) in
  let trace := filled ++ [ImageUpload (Some [file]) Main; UploadRead 1] in
  let again := filled ++ [CropConfirm true (Some "data:image/jpeg;base64,again")] in
  (rendered (mount initial) ∧ fresh (cells (mount initial))
   ∧ pipeline Main (cells (mount initial)) ≤ categoryMax Main
   ∧ along (intake_waits Main) trace (mount initial)
   ∧ along on_latest_render trace (mount initial)) ∧
  length (photoSet Main (cells (interact trace (mount initial)))) ≤ categoryMax Main ∧
  length (uploadedImages (cells (interact trace (mount initial)))) = 10 ∧
  cropQueue (cells (interact trace (mount initial))) = [] ∧
  ¬ along (intake_waits Main) (one_too_many Main) (mount initial) ∧
  along (intake_waits Main) again (mount initial) ∧
  ¬ along on_latest_render again (mount initial) ∧
  length (uploadedImages (cells (interact again (mount initial)))) = 11.
Proof.
  intros file filled trace again.
  assert (Hbound : pipeline Main (cells (mount initial)) ≤ categoryMax Main)
    by (vm_compute; lia).
  assert (Hwaits : along (intake_waits Main) trace (mount initial))
    by (vm_compute; repeat split; done).
  assert (Hlatest : along on_latest_render trace (mount initial))
    by (vm_compute; repeat split; done).
  destruct (photoSet_bound_kept_when_intakes_wait Main trace (mount initial)
              (rendered_mount initial) fresh_initial Hbound Hwaits Hlatest)
    as [Hlength _].
  split; [exact (conj (rendered_mount initial) (conj fresh_initial
            (conj Hbound (conj Hwaits Hlatest))))|].
  split; [exact Hlength|].
  split; [vm_compute; reflexivity|]. split; [vm_compute; reflexivity|].
  split.
  { vm_compute. intros (_ & _ & _ & _ & Hadd & _).
    destruct (Hadd eq_refl) as [Hqueue _]. discriminate Hqueue. }
  split; [vm_compute; repeat split; done|].
  split; [|vm_compute; reflexivity].
  vm_compute. intros Hall.
  repeat match type of Hall with _ ∧ (_ ∧ _) => destruct Hall as [_ Hall] end.
  destruct Hall as [Hclosing _]. discriminate (Hclosing eq_refl).
Defined.

(** ** The crop queue is first in, first out *)

Lemma committed_cons (category : ImageType) (item : QueueItem) (q : list QueueItem)
    (u : string) (us : list string) :
  committed category (item :: q) (u :: us)
  = (if decide (type item = category) then [u] else []) ++ committed category q us.
Proof.
  unfold committed. simpl. rewrite filter_cons. simpl. by case_decide.
Qed.

Lemma committed_length (entries : list QueueItem) : ∀ urls : list string,
  length urls ≤ length entries →
  length (committed Main entries urls) + length (committed Inspiration entries urls)
  = length urls.
Proof.
  induction entries as [|item q IH]; intros [|u us] Hlength; simpl in *; try done.
  - lia.
  - rewrite !committed_cons, !length_app. specialize (IH us).
    destruct (type item); repeat case_decide; simpl; try done; lia.
Qed.

(** Crop and save, each by the handlers of the latest render: the saves
    consume the entries from the head of the queue, one each, and a save
    that finds the queue empty does nothing. *)
Lemma run_cropAll (urls : list string) (s : State) (category : ImageType) :
  let s' := run (cropAll urls) s in
  cropQueue s' = drop (length urls) (cropQueue s) ∧
  photoSet category s' = photoSet category s ++ committed category (cropQueue s) urls ∧
  (appState s = PhotosUploaded ∨ urls ≠ [] ∧ cropQueue s ≠ [] →
   appState s' = PhotosUploaded).
Proof.
  revert s. induction urls as [|u us IH]; intros s s'.
  - unfold s'. simpl. rewrite drop_0. unfold committed.
    destruct (cropQueue s); simpl; rewrite app_nil_r; repeat split; try done.
    all: by intros [? | [? _]].
  - unfold s', cropAll. rewrite fmap_cons. simpl mjoin.
    rewrite !run_cons. fold (cropAll us).
    cbn [step]. unfold handleCropConfirm.
    cbn [completedCrop cropQueue setCompletedCrop].
    destruct (cropQueue s) as [|item q] eqn:Hqueue.
    + destruct (IH (setCompletedCrop (λ _, Some someCrop) s)) as (Hrest & Hset & Hview).
      cbv zeta in Hrest, Hset, Hview. rewrite Hrest, Hset.
      cbn [cropQueue setCompletedCrop]. rewrite Hqueue.
      split; [by rewrite !drop_nil|]. split; [by destruct category|].
      intros [Hstate | [_ ?]]; [|done]. apply Hview. by left.
    + match goal with
      | |- context [run (cropAll us) ?s2] =>
          destruct (IH s2) as (Hrest & Hset & Hview)
      end.
      cbv zeta in Hrest, Hset, Hview. rewrite Hrest, Hset, Hview by (by left).
      rewrite committed_cons.
      destruct (type item) eqn:Htype, category; simpl;
        rewrite Hqueue, slice_rest; simpl; rewrite <- ?app_assoc;
        repeat split; try done; case_decide; done.
Qed.

(** An event that the controls of the latest render receive: the handler
    is a [step], and React renders. *)
Lemma dispatch_latest (e : Event) (v : View) :
  rendered v → enabled e v = true → on_latest_render e v →
  (∀ modal, e ≠ ExitEnded modal) →
  dispatch e v = render (step e (cells v)) v.
Proof.
  intros Hv Henabled Hlatest Hevent. unfold dispatch. rewrite Henabled.
  rewrite call_latest by done. destruct e; try done. by edestruct Hevent.
Qed.

Lemma cropModal_latest (v : View) :
  rendered v → unmounted v = false → cropQueue (cells v) ≠ [] →
  cropModal v = Some (cells v).
Proof.
  unfold rendered. intros Hv Hmounted Hqueue. rewrite Hmounted in Hv.
  destruct Hv as (_ & _ & Hcrop). apply Hcrop. unfold cropModalShown.
  destruct (cropQueue (cells v)); done.
Qed.

Lemma renderThrows_mounted (v : View) :
  rendered v → unmounted v = false → renderThrows (cells v) = false.
Proof. unfold rendered. intros Hv Hmounted. rewrite Hmounted in Hv. tauto. Qed.

(** Crop and save with an entry waiting, through the view: both events are
    received by the latest render, and the tree stays mounted. *)
Lemma dispatch_cropAndSave (v : View) (c : PixelCrop) (u : string) :
  rendered v → unmounted v = false → cropQueue (cells v) ≠ [] →
  let v1 := dispatch (CropComplete c) v in
  let v2 := dispatch (CropConfirm true (Some u)) v1 in
  v1 = render (step (CropComplete c) (cells v)) v ∧
  unmounted v1 = false ∧
  cropModal v1 = Some (step (CropComplete c) (cells v)) ∧
  v2 = render (run [CropComplete c; CropConfirm true (Some u)] (cells v)) v1 ∧
  unmounted v2 = false.
Proof.
  intros Hv Hmounted Hqueue v1 v2.
  pose proof (cropModal_latest v Hv Hmounted Hqueue) as Hmodal.
  pose proof (renderThrows_mounted v Hv Hmounted) as Hfine.
  assert (Hv1 : v1 = render (step (CropComplete c) (cells v)) v).
  { apply dispatch_latest; try done.
    cbn [enabled]. by rewrite Hmounted, Hmodal, bool_decide_true. }
  assert (Hmounted1 : unmounted v1 = false).
  { rewrite Hv1, unmounted_render, Hmounted. exact Hfine. }
  assert (Hcells1 : cells v1 = step (CropComplete c) (cells v))
    by (by rewrite Hv1, cells_render).
  assert (Hqueue1 : cropQueue (cells v1) ≠ []) by (by rewrite Hcells1).
  assert (Hrendered1 : rendered v1) by (rewrite Hv1; apply rendered_render).
  pose proof (cropModal_latest v1 Hrendered1 Hmounted1 Hqueue1) as Hmodal1.
  assert (Hv2 : v2 = render (step (CropConfirm true (Some u)) (cells v1)) v1).
  { apply dispatch_latest; try done.
    - cbn [enabled]. by rewrite Hmounted1, Hmodal1, bool_decide_true.
    - intros _. unfold cropModalShown. cbn [on_latest_render].
      destruct (cropQueue (cells v1)); done. }
  split; [exact Hv1|]. split; [exact Hmounted1|].
  split; [by rewrite Hmodal1, Hcells1|].
  rewrite Hcells1 in Hv2. split; [exact Hv2|].
  rewrite Hv2, unmounted_render, Hmounted1. cbn [orb step].
  unfold handleCropConfirm. cbn [completedCrop cropQueue setCompletedCrop].
  destruct (cropQueue (cells v)) as [|item q]; [done|].
  unfold renderThrows, resultsShown. by destruct (type item).
Qed.

Lemma interact_cropAll (urls : list string) : ∀ v : View,
  rendered v → unmounted v = false →
  length urls ≤ length (cropQueue (cells v)) →
  cells (interact (cropAll urls) v) = run (cropAll urls) (cells v)
  ∧ rendered (interact (cropAll urls) v)
  ∧ unmounted (interact (cropAll urls) v) = false.
Proof.
  induction urls as [|u us IH]; intros v Hv Hmounted Hlength; [done|].
  assert (Hqueue : cropQueue (cells v) ≠ [])
    by (destruct (cropQueue (cells v)); simpl in *; [lia|done]).
  destruct (dispatch_cropAndSave v someCrop u Hv Hmounted Hqueue)
    as (_ & _ & _ & Hv2 & Hmounted2).
  cbv zeta in Hv2, Hmounted2.
  unfold cropAll. rewrite fmap_cons. simpl mjoin. fold (cropAll us).
  cbn [interact foldl]. rewrite !run_cons.
  match goal with
  | |- context [foldl _ ?v2 (cropAll us)] =>
      fold (interact (cropAll us) v2); destruct (IH v2) as (Hcells & Hrendered & Hkept)
  end.
  - by apply rendered_dispatch, rendered_dispatch.
  - exact Hmounted2.
  - rewrite Hv2, cells_render. cbn [run foldl step].
    unfold handleCropConfirm. cbn [completedCrop cropQueue setCompletedCrop].
    destruct (cropQueue (cells v)) as [|item q] eqn:Hitems; [done|].
    simpl in Hlength.
    destruct (type item); cbn; rewrite slice_rest, Hitems; simpl; lia.
  - rewrite Hcells. split; [|done]. by rewrite Hv2, cells_render.
Qed.

(** X8.  The crop queue is served first in, first out.  When a user crops
    and saves several times in a row, not more often than there are
    entries in the queue, every save is received by the modal of the
    latest render; the saves consume the entries from the head of the
    queue, one each, and each PhotoSet receives, appended in that order,
    the cropped images of the entries of its category, one photo for
    every save.  After a save the view is at photos-uploaded. *)
Theorem crop_queue_is_served_in_order (urls : list string) (v : View)
    (category : ImageType) :
  rendered v → unmounted v = false →
  length urls ≤ length (cropQueue (cells v)) →
  let s := cells v in
  let v' := interact (cropAll urls) v in
  cells v' = run (cropAll urls) s ∧
  cropQueue (cells v') = drop (length urls) (cropQueue s) ∧
  photoSet category (cells v')
  = photoSet category s ++ committed category (cropQueue s) urls ∧
  length (committed Main (cropQueue s) urls)
  + length (committed Inspiration (cropQueue s) urls)
  = length urls ∧
  (urls ≠ [] → appState (cells v') = PhotosUploaded) ∧
  unmounted v' = false.
Proof.
  intros Hv Hmounted Hlength s v'.
  destruct (interact_cropAll urls v Hv Hmounted Hlength) as (Hcells & _ & Hkept).
  fold v' in Hcells, Hkept. fold s in Hcells.
  destruct (run_cropAll urls s category) as (Hrest & Hset & Hview).
  cbv zeta in Hrest, Hset, Hview. rewrite <- Hcells in Hrest, Hset, Hview.
  split; [exact Hcells|]. split; [exact Hrest|].
  split; [exact Hset|]. split; [by apply committed_length|].
  split; [|exact Hkept].
  intros Hsome. apply Hview. right. split; [done|].
  fold s in Hlength. destruct urls; [done|]. destruct (cropQueue s); simpl in *; [lia|done].
Qed.

Lemma crop_queue_is_served_in_order_witness :
  let entry := λ u t, {| dataUrl := Some u; type := t |} in
  let s := initial |> setUploadedImages (λ _, ["data:old"])
                   |> setCropQueue (λ _, [entry "data:1" Main; entry "data:2" Inspiration;
                                          entry "data:3" Main; entry "data:4" Main]) in
  let v' := interact (cropAll ["data:a"; "data:b"; "data:c"]) (mount s) in
  (rendered (mount s) ∧ unmounted (mount s) = false
   ∧ length ["data:a"; "data:b"; "data:c"] ≤ length (cropQueue (cells (mount s)))
   ∧ ["data:a"; "data:b"; "data:c"] ≠ []) ∧
  cropQueue (cells v') = [entry "data:4" Main] ∧
  uploadedImages (cells v') = ["data:old"; "data:a"; "data:c"] ∧
  inspirationImages (cells v') = ["data:b"] ∧
  appState (cells v') = PhotosUploaded.
Proof.
  intros entry s v'.
  assert (Hmounted : unmounted (mount s) = false) by reflexivity.
  assert (Hlength : length ["data:a"; "data:b"; "data:c"]
                    ≤ length (cropQueue (cells (mount s)))) by (simpl; lia).
  assert (Hsome : ["data:a"; "data:b"; "data:c"] ≠ []) by done.
  destruct (crop_queue_is_served_in_order ["data:a"; "data:b"; "data:c"] (mount s) Main
              (rendered_mount s) Hmounted Hlength) as (_ & Hrest & Hmain & _ & Hview & _).
  destruct (crop_queue_is_served_in_order ["data:a"; "data:b"; "data:c"] (mount s)
              Inspiration (rendered_mount s) Hmounted Hlength) as (_ & _ & Hvibe & _).
  split; [exact (conj (rendered_mount s) (conj Hmounted (conj Hlength Hsome)))|].
  split; [exact Hrest|]. split; [exact Hmain|].
  split; [exact Hvibe|]. by apply Hview.
Defined.

(** ** A modal that is closing *)

(** A confirm that is carried out, whatever render the modal belongs to:
    the category is that of the entry the render saw, the photo goes to
    the PhotoSet of the moment, and the head of the queue of the moment,
    if there is one, is taken off. *)
Lemma handleCropConfirm_carried (captured s : State) (item : QueueItem)
    (q : list QueueItem) (c : PixelCrop) (u : string) :
  cropQueue captured = item :: q → completedCrop captured = Some c →
  let s' := handleCropConfirm true (Some u) captured s in
  photoSet (type item) s' = photoSet (type item) s ++ [u] ∧
  photoSet (other (type item)) s' = photoSet (other (type item)) s ∧
  cropQueue s' = tail (cropQueue s) ∧
  crop s' = None ∧ completedCrop s' = None ∧ appState s' = PhotosUploaded.
Proof.
  intros Hqueue Hcrop. unfold handleCropConfirm. rewrite Hqueue, Hcrop.
  destruct (type item); cbn; by rewrite slice_rest.
Qed.

(** X14.  The crop modal commits once more while it closes.  Let the crop
    modal be alone on the screen (no paste modal) with one entry in the
    queue.  When the entry has been cropped and saved, the queue is empty
    and the latest render returns no crop modal, but the modal stays
    mounted for its exit animation with the handlers of the render before
    the save, which saw the entry and the completed crop.  A second click
    on Crop & Save then appends a second photo to the PhotoSet of that
    entry, where the handler of the latest render would do nothing; the
    other PhotoSet and the queue are as they were.  Once the animation has
    ended, the click finds no button. *)
Theorem closing_crop_modal_commits_again
    (v : View) (item : QueueItem) (c : PixelCrop) (u u' : string) :
  rendered v → unmounted v = false →
  pasteModalShown (cells v) = false →
  cropQueue (cells v) = [item] →
  let v1 := interact [CropComplete c; CropConfirm true (Some u)] v in
  let v2 := dispatch (CropConfirm true (Some u')) v1 in
  let gone := dispatch (ExitEnded CropModal) v1 in
  photoSet (type item) (cells v1) = photoSet (type item) (cells v) ++ [u] ∧
  cropQueue (cells v1) = [] ∧
  completedCrop (cells v1) = None ∧
  cropModalShown (cells v1) = false ∧
  closing CropModal v1 = true ∧
  enabled (CropConfirm true (Some u')) v1 = true ∧
  step (CropConfirm true (Some u')) (cells v1) = cells v1 ∧
  photoSet (type item) (cells v2) = photoSet (type item) (cells v) ++ [u; u'] ∧
  photoSet (other (type item)) (cells v2) = photoSet (other (type item)) (cells v) ∧
  cropQueue (cells v2) = [] ∧
  cropModal gone = None ∧
  dispatch (CropConfirm true (Some u')) gone = gone.
Proof.
  intros Hv Hmounted _ Hqueue v1 v2 gone.
  assert (Hsome : cropQueue (cells v) ≠ []) by (by rewrite Hqueue).
  destruct (dispatch_cropAndSave v c u Hv Hmounted Hsome)
    as (Hfirst & _ & Hmodal & Hsecond & Hkept).
  cbv zeta in Hfirst, Hmodal, Hsecond, Hkept.
  change (dispatch (CropConfirm true (Some u)) (dispatch (CropComplete c) v))
    with v1 in Hsecond, Hkept.
  set (seen := setCompletedCrop (λ _, Some c) (cells v)) in *.
  assert (Hseen : cropQueue seen = [item]) by exact Hqueue.
  assert (Hcells : cells v1 = handleCropConfirm true (Some u) seen seen)
    by (by rewrite Hsecond, cells_render).
  destruct (handleCropConfirm_carried seen seen item [] c u Hseen eq_refl)
    as (Hsaved & Hother & Hrest & _ & Hcleared & _).
  cbv zeta in Hsaved, Hother, Hrest, Hcleared.
  rewrite <- Hcells in Hsaved, Hother, Hrest, Hcleared.
  rewrite Hseen in Hrest. cbn [tail] in Hrest.
  assert (Hhidden : cropModalShown (cells v1) = false)
    by (unfold cropModalShown; by rewrite Hrest).
  assert (Hclosure : cropModal v1 = Some seen).
  { rewrite Hsecond in Hkept, Hhidden |- *. rewrite cells_render in Hhidden.
    by rewrite cropModal_render, Hhidden. }
  assert (Henabled : enabled (CropConfirm true (Some u')) v1 = true)
    by (cbn [enabled]; by rewrite Hkept, Hclosure).
  assert (Hagain : cells v2 = handleCropConfirm true (Some u') seen (cells v1)).
  { unfold v2. rewrite cells_dispatch, Henabled. cbn [call]. by rewrite Hclosure. }
  destruct (handleCropConfirm_carried seen (cells v1) item [] c u' Hseen eq_refl)
    as (Hsaved' & Hother' & Hrest' & _).
  cbv zeta in Hsaved', Hother', Hrest'.
  rewrite <- Hagain in Hsaved', Hother', Hrest'.
  assert (Hgone : cropModal gone = None).
  { unfold gone, dispatch. cbn [enabled closing]. rewrite Hclosure, Hhidden.
    by rewrite bool_decide_true. }
  assert (Hunmounted : unmounted gone = unmounted v1) by apply unmounted_exit.
  split; [exact Hsaved|]. split; [exact Hrest|]. split; [exact Hcleared|].
  split; [exact Hhidden|]. split.
  { cbn [closing]. by rewrite Hclosure, Hhidden, bool_decide_true. }
  split; [exact Henabled|]. split.
  { cbn [step]. unfold handleCropConfirm. rewrite Hrest.
    by destruct (completedCrop (cells v1)). }
  split; [by rewrite Hsaved', Hsaved, <- app_assoc|].
  split; [by rewrite Hother', Hother|].
  split; [by rewrite Hrest', Hrest|].
  split; [exact Hgone|].
  unfold dispatch at 1. cbn [enabled]. rewrite Hgone, Hunmounted, Hkept.
  by rewrite bool_decide_false by (by intros [? ?]).
Qed.

Lemma closing_crop_modal_commits_again_witness :
  let file := Some "data:image/png;base64,file" in
  let s := initial |> setUploadedImages (λ _, replicate 9 "data:image/jpeg;base64,photo")
                   |> setAppState (λ _, PhotosUploaded)
                   |> setCropQueue (λ _, [{| dataUrl := file; type := Main |}]) in
  let v1 := interact [CropComplete someCrop; CropConfirm true (Some "data:tenth")]
              (mount s) in
  let v2 := dispatch (CropConfirm true (Some "data:eleventh")) v1 in
  (rendered (mount s) ∧ unmounted (mount s) = false
   ∧ pasteModalShown (cells (mount s)) = false
   ∧ cropQueue (cells (mount s)) = [{| dataUrl := file; type := Main |}]) ∧
  length (uploadedImages (cells v1)) = 10 ∧
  cropQueue (cells v1) = [] ∧
  length (uploadedImages (cells v2)) = 11 ∧
  last (uploadedImages (cells v2)) = Some "data:eleventh" ∧
  MAX_MAIN_IMAGES = 10.
Proof.
  intros file s v1 v2.
  assert (Hmounted : unmounted (mount s) = false) by reflexivity.
  assert (Hqueue : cropQueue (cells (mount s)) = [{| dataUrl := file; type := Main |}])
    by reflexivity.
  assert (Halone : pasteModalShown (cells (mount s)) = false) by reflexivity.
  destruct (closing_crop_modal_commits_again (mount s) _ someCrop "data:tenth"
              "data:eleventh" (rendered_mount s) Hmounted Halone Hqueue)
    as (Hsaved & Hempty & _ & _ & _ & _ & _ & Hagain & _).
  cbv zeta in Hsaved, Hempty, Hagain. fold v1 in Hsaved, Hempty, Hagain.
  fold v2 in Hagain. cbn [photoSet type] in Hsaved, Hagain.
  split; [exact (conj (rendered_mount s) (conj Hmounted (conj Halone Hqueue)))|].
  split; [by rewrite Hsaved|]. split; [exact Hempty|].
  split; [by rewrite Hagain|]. split; [by rewrite Hagain|reflexivity].
Defined.

(** X15.  A paste that was canceled can still be added while the paste
    modal closes.  Let the paste modal be alone on the screen (the crop
    queue empty).  [handleCancelPaste] empties the buffer and closes the
    modal without touching the queue; the modal stays mounted for its exit
    animation with the handlers of the render before, which saw the pasted
    images.  A click on one of its Add buttons then queues those images
    for the chosen category, truncated to the slots that render saw, where
    the handler of the latest render would queue nothing.  Once the
    animation has ended, the click finds no button. *)
Theorem closing_paste_modal_still_adds (v : View) (type : ImageType) :
  rendered v → unmounted v = false →
  cropQueue (cells v) = [] →
  pasteModalShown (cells v) = true →
  length (photoSet type (cells v)) < categoryMax type →
  let s := cells v in
  let accepted := take (categoryMax type - length (photoSet type s)) (pastedImages s) in
  let v1 := dispatch CancelPaste v in
  let v2 := dispatch (AddPastedImages type) v1 in
  let gone := dispatch (ExitEnded PasteModal) v1 in
  pastedImages (cells v1) = [] ∧
  isPasteModalOpen (cells v1) = false ∧
  cropQueue (cells v1) = cropQueue s ∧
  uploadedImages (cells v1) = uploadedImages s ∧
  inspirationImages (cells v1) = inspirationImages s ∧
  closing PasteModal v1 = true ∧
  enabled (AddPastedImages type) v1 = true ∧
  cropQueue (step (AddPastedImages type) (cells v1)) = cropQueue s ∧
  cropQueue (cells v2)
  = cropQueue s ++ ((λ dataUrl, {| dataUrl := Some dataUrl; type := type |}) <$> accepted) ∧
  accepted ≠ [] ∧
  pasteModal gone = None ∧
  dispatch (AddPastedImages type) gone = gone.
Proof.
  intros Hv Hmounted _ Hshown Hroom s accepted v1 v2 gone.
  pose proof (renderThrows_mounted v Hv Hmounted) as Hfine.
  assert (Hmodal : pasteModal v = Some s).
  { unfold rendered in Hv. rewrite Hmounted in Hv. by apply Hv. }
  assert (Hcancel : enabled CancelPaste v = true)
    by (cbn [enabled]; by rewrite Hmounted, Hmodal, bool_decide_true).
  assert (Hv1 : v1 = render (handleCancelPaste s) v)
    by (unfold v1, dispatch; by rewrite Hcancel).
  assert (Hcells : cells v1 = handleCancelPaste s) by (by rewrite Hv1, cells_render).
  assert (Hkept : unmounted v1 = false).
  { rewrite Hv1, unmounted_render, Hmounted. exact Hfine. }
  assert (Hclosure : pasteModal v1 = Some s).
  { rewrite Hv1 in Hkept |- *. by rewrite pasteModal_render. }
  assert (Hslots : (Z.of_nat match type with
                             | Main => MAX_MAIN_IMAGES
                             | Inspiration => MAX_INSPIRATION_IMAGES
                             end
                    - Z.of_nat match type with
                               | Main => length (uploadedImages s)
                               | Inspiration => length (inspirationImages s)
                               end)%Z
                   = Z.of_nat (categoryMax type - length (photoSet type s)))
    by (fold s in Hroom; destruct type; simpl in *; lia).
  assert (Henabled : enabled (AddPastedImages type) v1 = true).
  { cbn [enabled]. rewrite Hkept, Hclosure. fold s in Hroom.
    by rewrite (proj2 (Nat.leb_gt _ _)) by lia. }
  assert (Hgone : pasteModal gone = None).
  { unfold gone, dispatch. cbn [enabled closing]. rewrite Hclosure, Hcells.
    by rewrite bool_decide_true. }
  assert (Hunmounted : unmounted gone = unmounted v1) by apply unmounted_exit.
  rewrite Hcells. do 5 (split; [done|]). split.
  { cbn [closing]. by rewrite Hclosure, Hcells, bool_decide_true. }
  split; [exact Henabled|]. split.
  { cbn [step]. unfold handleAddPastedImages.
    destruct (_ <=? _)%Z; [done|]. unfold slice. cbn.
    by rewrite drop_nil, take_nil, app_nil_r. }
  split.
  { unfold v2. rewrite cells_dispatch, Henabled. cbn [call]. rewrite Hclosure, Hcells.
    unfold handleAddPastedImages. rewrite Hslots.
    destruct (_ <=? _)%Z eqn:Hnone; [apply Z.leb_le in Hnone; fold s in Hroom; lia|].
    by rewrite slice_prefix. }
  split.
  { unfold accepted, pasteModalShown in *. fold s in Hshown, Hroom.
    apply andb_true_iff in Hshown as [_ Hsome%Nat.ltb_lt].
    destruct (pastedImages s); simpl in *; [lia|].
    destruct (categoryMax type - length (photoSet type s)) eqn:Hn; [lia|done]. }
  split; [exact Hgone|].
  unfold dispatch at 1. cbn [enabled]. rewrite Hgone. by rewrite andb_false_r.
Qed.

Lemma closing_paste_modal_still_adds_witness :
  let trace := [Paste (Some "BODY") [Some "data:image/png;base64,pasted"]; PastedRead 0] in
  let v := interact trace (mount initial) in
  let v1 := dispatch CancelPaste v in
  (rendered v ∧ unmounted v = false ∧ cropQueue (cells v) = []
   ∧ pasteModalShown (cells v) = true
   ∧ length (photoSet Inspiration (cells v)) < categoryMax Inspiration) ∧
  pastedImages (cells v1) = [] ∧
  cropQueue (cells v1) = [] ∧
  cropQueue (cells (dispatch (AddPastedImages Inspiration) v1))
  = [{| dataUrl := Some "data:image/png;base64,pasted"; type := Inspiration |}] ∧
  cropQueue (cells (interact [ExitEnded PasteModal; AddPastedImages Inspiration] v1)) = [].
Proof.
  intros trace v v1.
  assert (Hv : rendered v) by (do 2 apply rendered_dispatch; apply rendered_mount).
  assert (Hmounted : unmounted v = false) by reflexivity.
  assert (Hshown : pasteModalShown (cells v) = true) by reflexivity.
  assert (Hroom : length (photoSet Inspiration (cells v)) < categoryMax Inspiration)
    by (vm_compute; lia).
  assert (Halone : cropQueue (cells v) = []) by reflexivity.
  destruct (closing_paste_modal_still_adds v Inspiration Hv Hmounted Halone Hshown Hroom)
    as (Hbuffer & _ & Hqueue & _ & _ & _ & _ & _ & Hadded & _ & _ & Hnothing).
  cbv zeta in Hbuffer, Hqueue, Hadded, Hnothing.
  fold v1 in Hbuffer, Hqueue, Hadded, Hnothing.
  split; [exact (conj Hv (conj Hmounted (conj Halone (conj Hshown Hroom))))|].
  split; [exact Hbuffer|]. split; [exact Hqueue|]. split; [exact Hadded|].
  unfold interact. cbn [foldl]. rewrite Hnothing.
  rewrite cells_dispatch. cbn [andb]. by case_match.
Defined.

(** ** A render that throws *)

Lemma enabled_unmounted (e : Event) (v : View) :
  rendered v → unmounted v = true → settles e = false → enabled e v = false.
Proof.
  unfold rendered. intros Hv Hgone Huser. rewrite Hgone in Hv.
  destruct Hv as [Hpaste Hcrop].
  destruct e; try done; cbn [enabled closing]; rewrite ?Hgone, ?Hpaste, ?Hcrop; try done.
  destruct modal; cbn [closing]; rewrite ?Hpaste, ?Hcrop;
    (rewrite bool_decide_false; [done|by intros [? ?]]).
Qed.

(** X16.  A late answer can take the whole tree down.  A regeneration that
    settles after a reset and a new start writes beyond the end of the new
    slot array and leaves a hole before its slot; the render passes over
    the hole.  The next write to the array copies it with a spread, which
    turns the hole into [undefined]; the render of the result cards then
    reads [image.status] of [undefined] and throws, and React unmounts the
    tree: no event but the settling of a promise is received any more, and
    the results, by now complete, are not shown. *)
Theorem render_fault_unmounts_the_tree :
  let slot := λ u, Item {| status := Done; url := Some u; error := None |} in
  let pending := Item {| status := Pending; url := None; error := None |} in
  let before := interact (removelast late_regeneration) (mount initial) in
  let after := interact late_regeneration (mount initial) in
  generatedImages (cells before) = [pending; Hole; slot "data:late"] ∧
  appState (cells before) = Generating ∧
  renderThrows (cells before) = false ∧
  unmounted before = false ∧
  generatedImages (cells after) = [slot "data:new"; Undefined; slot "data:late"] ∧
  appState (cells after) = ResultsShown ∧
  renderThrows (cells after) = true ∧
  unmounted after = true ∧
  (∀ e, settles e = false → enabled e after = false ∧ dispatch e after = after).
Proof.
  intros slot pending before after.
  do 8 (split; [vm_compute; reflexivity|]).
  intros e Huser.
  assert (Hdisabled : enabled e after = false).
  { apply enabled_unmounted; [|vm_compute; reflexivity|done].
    unfold after, interact. generalize (rendered_mount initial).
    generalize (mount initial). induction late_regeneration as [|e' trace IH]; [done|].
    intros v Hv. apply IH. by apply rendered_dispatch. }
  split; [exact Hdisabled|]. unfold dispatch. by rewrite Hdisabled.
Qed.

(** ** A batch in progress *)

(** The settlements of some requests of a batch while another request is
    still unsettled: the slots written are those of the settled requests,
    the batch stays in flight and the view is not touched. *)
Lemma run_settlements_partial (id : nat) (outcome : nat → Settled) (settled : list nat) :
  ∀ (s : State) (remaining : list nat) (j : nat),
    tasks s !! id = Some (Generation remaining) →
    NoDup settled → Forall (λ i, i ∈ remaining) settled →
    j ∈ remaining → j ∉ settled →
    let s' := run (settlements id outcome settled) s in
    generatedImages s' = write_slots outcome (generatedImages s) settled ∧
    appState s' = appState s ∧
    ∃ remaining', tasks s' !! id = Some (Generation remaining') ∧ j ∈ remaining'.
Proof.
  induction settled as [|i settled IH]; intros s remaining j Htask Hnodup Hin Hj Hnj.
  - simpl. eauto.
  - apply NoDup_cons in Hnodup as [Hi Hnodup].
    apply Forall_cons in Hin as [Hiin Hin].
    apply not_elem_of_cons in Hnj as [Hji Hnj].
    unfold settlements. rewrite fmap_cons, run_cons.
    fold (settlements id outcome settled).
    assert (Hj' : j ∈ filter (λ k, k ≠ i) remaining) by (by apply list_elem_of_filter).
    cbn [step]. unfold handleGenerateClick_settled.
    rewrite Htask, bool_decide_true by done.
    unfold handleGenerateClick_joined. cbn [tasks setTasks].
    rewrite lookup_insert_eq.
    destruct (filter (λ k, k ≠ i) remaining) as [|r rest] eqn:Hfilter;
      [by apply elem_of_nil in Hj'|].
    match goal with
    | |- context [run _ ?s1] =>
        destruct (IH s1 (r :: rest) j) as (Himages & Hstate & Hbatch); try done
    end.
    + cbn [tasks setTasks]. apply lookup_insert_eq.
    + apply Forall_forall. intros k Hk. rewrite <- Hfilter.
      apply list_elem_of_filter. split; [by intros ->|].
      by eapply Forall_forall in Hin.
Qed.

(** X9.  Results show up one by one.  While a request of a batch is still
    unsettled, whatever requests have settled so far and in whatever order,
    the view stays at generating, the slot array keeps its [K] entries,
    every settled request has its outcome in its own slot, and every other
    slot is still pending. *)
Theorem batch_shows_partial_results
    (s : State) (outcome : nat → Settled) (settled : list nat) (j : nat) :
  uploadedImages s ≠ [] → inspirationImages s ≠ [] →
  NoDup settled → Forall (λ i, i < generationCount s) settled →
  j < generationCount s → j ∉ settled →
  let s' := run (settlements (nextId s) outcome settled) (step GenerateClick s) in
  appState s' = Generating ∧
  length (generatedImages s') = generationCount s ∧
  (∀ i, i ∈ settled → generatedImages s' !! i = Some (Item (imageOf (outcome i)))) ∧
  (∀ i, i < generationCount s → i ∉ settled →
        generatedImages s' !! i = Some (Item pendingImage)).
Proof.
  intros Hup Hinsp Hnodup Hrange Hj Hnj.
  rewrite handleGenerateClick_started by (done || lia).
  match goal with
  | |- context [run _ ?s1] =>
      destruct (run_settlements_partial (nextId s) outcome settled s1
                  (seq 0 (generationCount s)) j) as (Himages & Hstate & _)
  end; try done.
  - cbn [tasks spawn]. apply lookup_insert_eq.
  - eapply Forall_impl; [exact Hrange|]. intros i Hi. simpl in Hi.
    apply elem_of_seq. lia.
  - apply elem_of_seq. lia.
  - cbv zeta in *. rewrite Himages, Hstate.
    cbn [generatedImages appState spawn emit setGeneratedImages setAppState].
    destruct (write_slots_lookup outcome settled
                (replicate (generationCount s) (Item pendingImage)))
      as [Hlen Hlook].
    + by apply Forall_replicate.
    + by rewrite length_replicate.
    + rewrite length_replicate in Hlen. split; [done|]. split; [done|]. split.
      * intros i Hi. by rewrite Hlook, decide_True.
      * intros i Hi Hni. rewrite Hlook, decide_False by done.
        by apply lookup_replicate_2.
Qed.

Lemma batch_shows_partial_results_witness :
  let s := initial |> setUploadedImages (λ _, ["data:me"])
                   |> setInspirationImages (λ _, ["data:vibe"])
                   |> setGenerationCount (λ _, 3) in
  let outcome := λ i, if i =? 2 then Rejected OtherValue else Fulfilled "data:result" in
  let s' := run (settlements 0 outcome [2]) (step GenerateClick s) in
  (uploadedImages s ≠ [] ∧ inspirationImages s ≠ [] ∧ NoDup [2] ∧
   Forall (λ i, i < generationCount s) [2] ∧ 0 < generationCount s ∧ 0 ∉ [2]) ∧
  appState s' = Generating ∧
  status_at (generatedImages s') 0 = Some Pending ∧
  status_at (generatedImages s') 1 = Some Pending ∧
  status_at (generatedImages s') 2 = Some Error.
Proof.
  intros s outcome s'.
  assert (Hup : uploadedImages s ≠ []) by done.
  assert (Hinsp : inspirationImages s ≠ []) by done.
  assert (Hnodup : NoDup [2]) by (apply NoDup_singleton).
  assert (Hrange : Forall (λ i, i < generationCount s) [2])
    by (repeat constructor; simpl; lia).
  assert (Hj : 0 < generationCount s) by (simpl; lia).
  assert (Hnj : 0 ∉ [2]) by (by intros ?%list_elem_of_singleton).
  destruct (batch_shows_partial_results s outcome [2] 0 Hup Hinsp Hnodup Hrange Hj Hnj)
    as (Hstate & _ & Hsettled & Hpending).
  assert (H2 : 2 ∈ [2]) by (by apply list_elem_of_singleton).
  assert (H1 : 1 ∉ [2]) by (by intros ?%list_elem_of_singleton).
  split; [done|]. split; [exact Hstate|]. unfold status_at.
  change (generatedImages s') with
    (generatedImages (run (settlements (nextId s) outcome [2]) (step GenerateClick s))).
  rewrite (Hpending 0), (Hpending 1), (Hsettled 2) by (done || (simpl; lia)). done.
Defined.

(** ** A regeneration that outlives a reset *)

Lemma assign_nil (i : nat) (v : Cell) : assign [] i v = replicate i Hole ++ [v].
Proof. induction i as [|i IH]; [done|]. simpl. by rewrite IH. Qed.

(** X10.  Nothing cancels a request.  A regeneration of slot [i] that is
    started, followed by [handleReset] and only then by the settling of the
    request, still writes its outcome: the slot array, emptied by the reset,
    comes out with [i] holes and the outcome at position [i], while the view
    is idle and both PhotoSets are empty. *)
Theorem regeneration_outlives_reset (s : State) (i : nat) (outcome : Settled) :
  uploadedImages s ≠ [] → inspirationImages s ≠ [] →
  status_at (generatedImages s) i ≠ Some Pending →
  let s' := run [RegenerateSlot i; Reset; RegenerationSettled (nextId s) outcome] s in
  generatedImages s' = replicate i Hole ++ [Item (imageOf outcome)] ∧
  length (generatedImages s') = S i ∧
  appState s' = Idle ∧
  uploadedImages s' = [] ∧
  inspirationImages s' = [] ∧
  tasks s' = delete (nextId s) (tasks s).
Proof.
  intros Hup Hinsp Hpending s'. unfold s', run. cbn [foldl step].
  unfold handleRegenerateSlot.
  destruct (uploadedImages s) as [|u us] eqn:Eu; [done|].
  destruct (inspirationImages s) as [|v vs] eqn:Ev; [done|].
  cbn [length Nat.eqb orb]. rewrite (bool_decide_false _ Hpending).
  cbn [tasks handleReset spawn emit setGeneratedImages setUploadedImages
         setInspirationImages setUserPrompt setAppState].
  rewrite lookup_insert_eq.
  destruct outcome; cbn; rewrite assign_nil, delete_insert_eq;
    repeat split; by rewrite length_app, length_replicate, Nat.add_1_r.
Qed.

Lemma regeneration_outlives_reset_witness :
  let slot := λ u, Item {| status := Done; url := Some u; error := None |} in
  let s := initial |> setUploadedImages (λ _, ["data:me"])
                   |> setInspirationImages (λ _, ["data:vibe"])
                   |> setGeneratedImages (λ _, [slot "data:r1"; slot "data:r2"; slot "data:r3"])
                   |> setAppState (λ _, ResultsShown) in
  let trace := [RegenerateSlot 2; Reset; RegenerationSettled 0 (Fulfilled "data:late")] in
  (uploadedImages s ≠ [] ∧ inspirationImages s ≠ [] ∧
   status_at (generatedImages s) 2 ≠ Some Pending) ∧
  generatedImages (run trace s) = [Hole; Hole; slot "data:late"] ∧
  generatedImages (cells (interact trace (mount s))) = [Hole; Hole; slot "data:late"] ∧
  appState (run trace s) = Idle.
Proof.
  intros slot s trace.
  assert (Hup : uploadedImages s ≠ []) by done.
  assert (Hinsp : inspirationImages s ≠ []) by done.
  assert (Hpending : status_at (generatedImages s) 2 ≠ Some Pending) by done.
  destruct (regeneration_outlives_reset s 2 (Fulfilled "data:late") Hup Hinsp Hpending)
    as (Himages & _ & Hstate & _).
  split; [done|]. split; [exact Himages|]. split; [reflexivity|exact Hstate].
Defined.

(** ** Single downloads and the album *)

Lemma handleDownloadIndividualImage_effect (index : nat) (s : State) :
  handleDownloadIndividualImage index s
  = match generatedImages s !! index ≫= doneImage with
    | Some u => s |> emit [download u ("perfect-shot-" +:+ pretty (index + 1) +:+ ".jpg")]
    | None => s
    end.
Proof.
  unfold handleDownloadIndividualImage, doneImage.
  destruct (generatedImages s !! index) as [[| |image]|]; simpl; try done.
  destruct (status image), (url image) as [u|]; try done. by destruct (truthy u).
Qed.

(** X11.  The single download and the album agree on which slots hold an
    image.  On a slot array without [undefined] entries and with at least
    one image, the album is composed from an object [imageData], and for
    every position [index] the single download of that position saves,
    under the name [perfect-shot-(index+1).jpg], exactly the image that
    [imageData] holds under ["Result (index+1)"], and saves nothing when
    [imageData] has no such entry (a pending or failed slot, a done slot
    with an empty [url], a position beyond the array).  A single download
    changes no state cell and starts nothing. *)
Theorem single_download_matches_album (s : State) :
  Forall (λ c, c ≠ Undefined) (generatedImages s) →
  0 < done_count (generatedImages s) →
  ∃ imageData : gmap string string,
    effects (step DownloadAlbum s) = effects s ++ [createAlbumPage imageData] ∧
    ∀ index,
      let s' := step (DownloadIndividualImage index) s in
      effects s'
      = effects s ++
        match imageData !! ("Result " +:+ pretty (index + 1)) with
        | Some u => [download u ("perfect-shot-" +:+ pretty (index + 1) +:+ ".jpg")]
        | None => []
        end ∧
      same_cells s s' ∧
      tasks s' = tasks s.
Proof.
  intros Hdefined Hsome.
  destruct (collect_labels (generatedImages s) Hdefined)
    as (imageData & Hcollect & Hlabels & _ & Hsize).
  exists imageData. split.
  - cbn [step]. unfold handleDownloadAlbum. cbn [generatedImages setIsDownloading].
    rewrite Hcollect, Hsize.
    by destruct (done_count (generatedImages s)); [lia|].
  - intros index. cbn [step]. rewrite handleDownloadIndividualImage_effect.
    change ("Result " +:+ pretty (index + 1)) with (label index). rewrite Hlabels.
    destruct (generatedImages s !! index ≫= doneImage); simpl;
      rewrite ?app_nil_r; by repeat split.
Qed.

Lemma single_download_matches_album_witness :
  let slot := Item {| status := Done; url := Some "data:r1"; error := None |} in
  let failed := Item {| status := Error; url := None; error := Some "quota exceeded" |} in
  let s := initial |> setGeneratedImages (λ _, [slot; failed])
                   |> setAppState (λ _, ResultsShown) in
  (Forall (λ c, c ≠ Undefined) (generatedImages s) ∧
   0 < done_count (generatedImages s)) ∧
  ∃ imageData : gmap string string,
    effects (step DownloadAlbum s) = [createAlbumPage imageData] ∧
    effects (step (DownloadIndividualImage 0) s)
    = match imageData !! "Result 1" with
      | Some u => [download u "perfect-shot-1.jpg"]
      | None => []
      end ∧
    effects (step (DownloadIndividualImage 0) s) = [download "data:r1" "perfect-shot-1.jpg"] ∧
    effects (step (DownloadIndividualImage 1) s) = [].
Proof.
  intros slot failed s.
  assert (Hdefined : Forall (λ c, c ≠ Undefined) (generatedImages s))
    by (repeat constructor; done).
  assert (Hsome : 0 < done_count (generatedImages s)) by (vm_compute; lia).
  destruct (single_download_matches_album s Hdefined Hsome)
    as (imageData & Halbum & Hsingle).
  split; [exact (conj Hdefined Hsome)|]. exists imageData. split; [exact Halbum|].
  split; [exact (proj1 (Hsingle 0))|]. split; vm_compute; reflexivity.
Defined.

(** ** An upload above the maximum *)

Lemma slice_negative_stop {A} (l : list A) (k : nat) :
  0 < k → slice l 0 (Some (- Z.of_nat k)%Z) = take (length l - k) l.
Proof.
  intros Hk. unfold slice, relative_index.
  destruct (- Z.of_nat k <? 0)%Z eqn:E; [|apply Z.ltb_ge in E; lia].
  change (0 <? 0)%Z with false. cbv iota.
  rewrite (Z.min_l 0) by lia. change (Z.to_nat 0) with 0. rewrite drop_0.
  f_equal. lia.
Qed.

(** X12.  [handleImageUpload] has no guard of its own for a PhotoSet that
    is above its maximum: the end of its [slice] is then negative, and it
    keeps all files of the batch but the last [size - max] instead of none,
    and these reach the crop queue.  What keeps a user from it is the
    [disabled] attribute of the file input, which holds at and above the
    maximum, whatever else is mounted; [handleAddPastedImages], called from
    the latest render, accepts nothing there with its test of the available
    slots. *)
Theorem upload_above_maximum_keeps_files
    (s : State) (type : ImageType) (batch : list File) :
  categoryMax type < length (photoSet type s) →
  let over := length (photoSet type s) - categoryMax type in
  let kept := (λ file, {| dataUrl := file; type := type |})
              <$> take (length batch - over) batch in
  let s1 := step (ImageUpload (Some batch) type) s in
  tasks s1 = <[nextId s := ReadUpload kept]> (tasks s) ∧
  cropQueue (step (UploadRead (nextId s)) s1) = cropQueue s ++ kept ∧
  length kept = length batch - over ∧
  (∀ v, cells v = s →
        enabled (ImageUpload (Some batch) type) v = false ∧
        dispatch (ImageUpload (Some batch) type) v = v) ∧
  step (AddPastedImages type) s = s.
Proof.
  intros Hover over kept s1.
  assert (Hs1 : s1 = spawn (ReadUpload kept) s).
  { unfold s1, kept. cbn [step]. unfold handleImageUpload.
    replace (Z.of_nat match type with
                      | Main => MAX_MAIN_IMAGES
                      | Inspiration => MAX_INSPIRATION_IMAGES
                      end
             - Z.of_nat match type with
                        | Main => length (uploadedImages s)
                        | Inspiration => length (inspirationImages s)
                        end)%Z
      with (- Z.of_nat over)%Z by (unfold over; destruct type; simpl in *; lia).
    rewrite slice_negative_stop; [done|]. unfold over. lia. }
  clearbody s1. subst s1.
  split; [done|]. split.
  { cbn [step tasks spawn]. by rewrite lookup_insert_eq. }
  split; [unfold kept; rewrite length_fmap, length_take; lia|].
  split.
  { intros v <-.
    assert (Hdisabled : enabled (ImageUpload (Some batch) type) v = false).
    { cbn [enabled]. rewrite (proj2 (Nat.leb_le _ _)) by lia. apply andb_false_r. }
    split; [exact Hdisabled|]. unfold dispatch. by rewrite Hdisabled. }
  cbn [step]. unfold handleAddPastedImages.
  destruct (_ <=? _)%Z eqn:Hslots; [done|].
  apply Z.leb_gt in Hslots. destruct type; simpl in *; lia.
Qed.

Lemma upload_above_maximum_keeps_files_witness :
  let s := initial |> setInspirationImages (λ _, replicate 6 "data:v")
                   |> setAppState (λ _, PhotosUploaded) in
  let batch := [Some "data:a"; Some "data:b"; Some "data:c"] in
  categoryMax Inspiration < length (photoSet Inspiration s) ∧
  cropQueue (run [ImageUpload (Some batch) Inspiration; UploadRead 0] s)
  = [{| dataUrl := Some "data:a"; type := Inspiration |};
     {| dataUrl := Some "data:b"; type := Inspiration |}] ∧
  cells (interact [ImageUpload (Some batch) Inspiration; UploadRead 0] (mount s)) = s.
Proof.
  intros s batch.
  assert (Hover : categoryMax Inspiration < length (photoSet Inspiration s))
    by (vm_compute; lia).
  destruct (upload_above_maximum_keeps_files s Inspiration batch Hover)
    as (_ & Hqueue & _ & Hview & _).
  destruct (Hview (mount s) (cells_mount s)) as [_ Hrefused].
  split; [exact Hover|]. split; [exact Hqueue|].
  unfold interact. cbn [foldl]. rewrite Hrefused. reflexivity.
Defined.

(** ** The number of slots of a batch *)

Lemma generationCount_dispatch (e : Event) (v : View) :
  1 ≤ generationCount (cells v) ≤ 8 → 1 ≤ generationCount (cells (dispatch e v)) ≤ 8.
Proof.
  intros Hcount. rewrite cells_dispatch.
  destruct (enabled e v) eqn:Henabled; [|done].
  destruct e; try done; cbn [call step].
  all: try (case_match; [|done]).
  all: rewrite ?(proj2 (proj2 (proj2 (handleAddPastedImages_tasks _ _ _)))),
         ?(proj2 (proj2 (proj2 (handleCropConfirm_tasks _ _ _ _)))); try done.
  all: unfold_handlers; repeat case_match; try done.
  cbn [enabled] in Henabled. simpl.
  apply andb_true_iff in Henabled as [[_ Hlow]%andb_true_iff Hhigh].
  apply Nat.leb_le in Hlow, Hhigh. lia.
Qed.

Lemma omap_replicate {A B} (f : A → option B) (x : A) (y : B) (n : nat) :
  f x = Some y → omap f (replicate n x) = replicate n y.
Proof.
  intros Hf. induction n as [|n IH]; [done|].
  cbn [replicate omap list_omap]. rewrite Hf. fold (omap f (replicate n x)).
  by rewrite IH.
Qed.

(** X13.  A batch started from the mounted controls has between one and
    eight slots.  The slider only gives counts from 1 to 8 and nothing else
    writes the count, so from cells with a count in that range (the initial
    count is 4), whatever is mounted, after any events that go through the
    view the count is in that range; and when the Generate button is then
    enabled, a click creates exactly that many slots, every one with the
    status pending and neither image nor message, and issues as many
    requests. *)
Theorem batch_has_one_to_eight_slots (v : View) (trace : list Event) :
  1 ≤ generationCount (cells v) ≤ 8 →
  let v' := interact trace v in
  let s' := cells v' in
  1 ≤ generationCount s' ≤ 8 ∧
  (enabled GenerateClick v' = true →
   let started := cells (dispatch GenerateClick v') in
   generatedImages started
   = replicate (generationCount s')
       (Item {| status := Pending; url := None; error := None |}) ∧
   (∀ i, i < generationCount s' → status_at (generatedImages started) i = Some Pending) ∧
   1 ≤ length (generatedImages started) ≤ 8 ∧
   length (requests started) = length (requests s') + generationCount s' ∧
   appState started = Generating).
Proof.
  intros Hcount v' s'.
  assert (Hkept : 1 ≤ generationCount s' ≤ 8).
  { unfold s', v', interact. clear s' v'. revert v Hcount.
    induction trace as [|e trace IH]; intros v Hcount; [done|].
    simpl. apply IH. by apply generationCount_dispatch. }
  split; [exact Hkept|]. intros Henabled started.
  unfold started. rewrite cells_dispatch, Henabled. cbn [call]. fold s'.
  cbn [enabled] in Henabled. unfold isGenerateButtonDisabled in Henabled. fold s' in Henabled.
  apply andb_true_iff in Henabled as [_ Hbutton]. apply negb_true_iff in Hbutton.
  apply orb_false_iff in Hbutton as [[Hup Hinsp]%orb_false_iff _].
  rewrite handleGenerateClick_started.
  - cbn [generatedImages appState spawn emit setGeneratedImages setAppState].
    rewrite length_replicate. split; [done|]. split.
    { intros i Hi. unfold status_at. by rewrite (lookup_replicate_2 _ _ _ Hi). }
    split; [done|]. split; [|done].
    unfold requests. cbn [effects spawn emit setGeneratedImages setAppState].
    rewrite omap_app, length_app. f_equal.
    by erewrite omap_replicate, length_replicate.
  - intros Hnil. by rewrite Hnil in Hup.
  - intros Hnil. by rewrite Hnil in Hinsp.
  - lia.
Qed.

Lemma batch_has_one_to_eight_slots_witness :
  let s := initial |> setUploadedImages (λ _, ["data:me"])
                   |> setInspirationImages (λ _, ["data:vibe"])
                   |> setAppState (λ _, PhotosUploaded) in
  let trace := [CountChange 0; CountChange 7; CountChange 12] in
  let v' := interact trace (mount s) in
  (1 ≤ generationCount (cells (mount s)) ≤ 8 ∧ enabled GenerateClick v' = true) ∧
  generationCount (cells v') = 7 ∧
  length (generatedImages (cells (dispatch GenerateClick v'))) = 7 ∧
  status_at (generatedImages (cells (dispatch GenerateClick v'))) 6 = Some Pending.
Proof.
  intros s trace v'.
  assert (Hcount : 1 ≤ generationCount (cells (mount s)) ≤ 8) by (simpl; lia).
  assert (Henabled : enabled GenerateClick v' = true) by reflexivity.
  destruct (batch_has_one_to_eight_slots (mount s) trace Hcount) as [_ Hbatch].
  destruct (Hbatch Henabled) as (Hslots & Hpending & _).
  split; [exact (conj Hcount Henabled)|]. split; [reflexivity|].
  split; [unfold v'; rewrite Hslots; apply length_replicate|].
  apply Hpending. vm_compute. lia.
Defined.
